(** * teachablemachine-node: the readiness-gated classification pipeline

    A shallow embedding of [src/index.js] (the class
    [SashiDoTeachableMachine] and its helpers [retryOperation], [predict]
    and [getTopKClasses]) together with the properties its specification
    states about it.

    Conventions of the embedding.
    - Scores are the entries of the [Float32Array] returned by
      [logits.data()]: a finite number, an infinity or NaN ([Score]).  A
      finite float is a rational, and on finite floats the sign of
      [b.value - a.value] is the sign of the exact difference.  Pixel
      arithmetic is exact rational arithmetic; rounding is outside the
      model.
    - A promise is modelled by its settlement ([Outcome]); the code that
      runs between two settlements is a function on an explicit [World]
      holding the clock, the instance fields and the trace of the calls made
      to the external collaborators.  Promises of collaborators settle.
    - The external collaborators (file system, network, codec, tensor
      runtime, URL helpers) are the fields of the records [Env] and
      [TensorRuntime]; nothing is assumed about them beyond what a theorem
      states. *)

From Stdlib Require Import List ZArith QArith String Ascii Bool Lia.
From Stdlib Require Import Sorted Permutation Lqa.
Import ListNotations.

Local Open Scope string_scope.
Local Open Scope Z_scope.

(* ================================================================= *)
(** ** ScoreRanker: [getTopKClasses] (index.js, lines 64-96)           *)
(* ================================================================= *)

(** A score as a [Float32Array] holds it. *)
Inductive Score : Type :=
| NegInf
| Num (q : Q)
| PosInf
| NaN.

(** [b - a] on numbers. *)
Definition scoreSub (b a : Score) : Score :=
  match b, a with
  | NaN, _ | _, NaN => NaN
  | Num x, Num y => Num (x - y)
  | PosInf, PosInf | NegInf, NegInf => NaN
  | PosInf, _ | _, NegInf => PosInf
  | NegInf, _ | _, PosInf => NegInf
  end.

(** [v > 0], the only thing a sort asks of a comparator's result when it
    decides whether to move an element behind another (NaN counts as 0). *)
Definition positive (v : Score) : bool :=
  match v with
  | PosInf => true
  | Num q => match (0 ?= q)%Q with Lt => true | _ => false end
  | _ => false
  end.

Definition notNaN (v : Score) : Prop :=
  match v with
  | NaN => False
  | _ => True
  end.

(** The order of the numbers that are not NaN. *)
Definition scoreLt (a b : Score) : Prop :=
  match a, b with
  | NegInf, Num _ | NegInf, PosInf | Num _, PosInf => True
  | Num x, Num y => (x < y)%Q
  | _, _ => False
  end.

Definition scoreEq (a b : Score) : Prop :=
  match a, b with
  | NegInf, NegInf | PosInf, PosInf => True
  | Num x, Num y => (x == y)%Q
  | _, _ => False
  end.

Definition scoreLe (a b : Score) : Prop := scoreLt a b \/ scoreEq a b.

(** [{ value: values[i], index: i }] *)
Record ValueAndIndex : Type := mkVI { value : Score; index : nat }.

(** [{ class: ..., score: ... }]; [class] is [None] when the label lookup
    [classes[j]] yields [undefined]. *)
Record ClassAndProb : Type := mkCP { class : option string; score : Score }.

(** The loop of lines 70-72, started at position [i]. *)
Fixpoint pushValuesFrom (i : nat) (values : list Score) : list ValueAndIndex :=
  match values with
  | [] => []
  | v :: rest => mkVI v i :: pushValuesFrom (S i) rest
  end.

Definition valuesAndIndices (values : list Score) : list ValueAndIndex :=
  pushValuesFrom 0 values.

(** The comparator of lines 74-76: [(a, b) => b.value - a.value]. *)
Definition compareFn (a b : ValueAndIndex) : Score := scoreSub (value b) (value a).

(** [Array.prototype.sort] is a stable sort (ECMAScript 2019, and every
    Node.js release able to run the package's dependencies): an element
    moves behind another one only when the comparator is positive.  All
    stable sorts agree on a consistent comparator, so the simplest one,
    insertion from the right, stands for the engine's.  With a NaN among
    the scores the comparator is not consistent (a NaN result counts as 0,
    so a NaN ties with every score) and the standard leaves the order to
    the engine: the insertion below then stops at the first NaN it meets,
    so that nothing moves on [[0.25, NaN, 0.5]].  What is proved about the
    order of the output is proved for score vectors without NaN, or for
    every arrangement of the pairs. *)
Fixpoint sortInsert (cmp : ValueAndIndex -> ValueAndIndex -> Score)
         (x : ValueAndIndex) (l : list ValueAndIndex) : list ValueAndIndex :=
  match l with
  | [] => [x]
  | y :: l' =>
      if positive (cmp x y) then y :: sortInsert cmp x l' else x :: l
  end.

Fixpoint arraySort (cmp : ValueAndIndex -> ValueAndIndex -> Score)
         (l : list ValueAndIndex) : list ValueAndIndex :=
  match l with
  | [] => []
  | x :: l' => sortInsert cmp x (arraySort cmp l')
  end.

(** Lines 86-93: one entry per position of [topkIndices]. *)
Fixpoint pushClassesAndProbs (classes : list string)
         (topkIndices : list nat) (topkValues : list Score) : list ClassAndProb :=
  match topkIndices, topkValues with
  | j :: js, v :: vs =>
      mkCP (nth_error classes j) v :: pushClassesAndProbs classes js vs
  | _, _ => []
  end.

(** Lines 66-95, after [values] has been read.  [topkValues] and
    [topkIndices] are typed arrays of length [topK] filled from the first
    [topK] sorted pairs ([topK <= values.length], so every read is within
    the sorted array); storing a score that came out of a [Float32Array]
    into a [Float32Array] does not change it. *)
Definition getTopKClasses (values : list Score) (classes : list string)
  : list ClassAndProb :=
  let topK := Nat.min (List.length classes) (List.length values) in
  let sorted := arraySort compareFn (valuesAndIndices values) in
  let topkValues := map value (firstn topK sorted) in
  let topkIndices := map index (firstn topK sorted) in
  pushClassesAndProbs classes topkIndices topkValues.

(** The order the ranked pairs are claimed to be in: higher score first,
    and among equal scores the lower original index first. *)
Definition rankedBefore (p q : ValueAndIndex) : Prop :=
  scoreLt (value q) (value p) \/
  (scoreEq (value p) (value q) /\ (index p < index q)%nat).

(** The entry emitted for a sorted pair. *)
Definition emit (classes : list string) (p : ValueAndIndex) : ClassAndProb :=
  mkCP (nth_error classes (index p)) (value p).

(** The ranking policy in the specification's words (section 4.5): walk the
    whole sorted list, emit the pairs that have a label, stop after [k]
    entries or at the end of the list. *)
Fixpoint emitLabeled (classes : list string) (k : nat)
         (sorted : list ValueAndIndex) : list ClassAndProb :=
  match k, sorted with
  | O, _ => []
  | _, [] => []
  | S k', p :: rest =>
      match nth_error classes (index p) with
      | Some c => mkCP (Some c) (value p) :: emitLabeled classes k' rest
      | None => emitLabeled classes k rest
      end
  end.

Definition rankSkipping (values : list Score) (classes : list string)
  : list ClassAndProb :=
  emitLabeled classes (Nat.min (List.length classes) (List.length values))
              (arraySort compareFn (valuesAndIndices values)).
(* ================================================================= *)
(** ** Values, settlements and the world                               *)
(* ================================================================= *)

(** The JavaScript values that travel as rejection reasons: [undefined], a
    bare string, an object literal such as [{ error: e }] or
    [{ message: "Loading model" }], and an [Error] instance thrown by the
    platform or by a collaborator. *)
#[warnings="-register-all"]
Inductive Value : Type :=
| VUndefined
| VStr (s : string)
| VObj (fields : list (string * Value))
| VError (name message : string).

Fixpoint lookupField (k : string) (fields : list (string * Value)) : Value :=
  match fields with
  | [] => VUndefined
  | (k', v) :: rest => if String.eqb k k' then v else lookupField k rest
  end.

(** The field [k] of [v], as the destructuring [({ message }) => ...] reads
    it from a value that can be destructured: [undefined] when the field is
    missing, as on a string.  The value [undefined] itself cannot be
    destructured (that throws); the function is not meant for it, see
    [retryOperation]. *)
Definition getField (k : string) (v : Value) : Value :=
  match v with
  | VObj fields => lookupField k fields
  | VError name message =>
      if String.eqb k "message" then VStr message
      else if String.eqb k "name" then VStr name else VUndefined
  | _ => VUndefined
  end.

(** [{ error: e }], the shape of the rejections written out in [classify]
    and [inference]. *)
Definition errorObject (e : Value) : Value := VObj [("error", e)].

Definition isErrorObject (v : Value) : bool :=
  match v with
  | VObj [(k, _)] => String.eqb k "error"
  | _ => false
  end.

(** How a promise settles, or how a synchronous piece of code ends
    (a [throw] is a rejection of the enclosing async function). *)
Inductive Outcome (A : Type) : Type :=
| Resolved (a : A)
| Rejected (reason : Value).
Arguments Resolved {A} a.
Arguments Rejected {A} reason.

Definition obind {A B : Type} (o : Outcome A) (k : A -> Outcome B) : Outcome B :=
  match o with
  | Resolved a => k a
  | Rejected r => Rejected r
  end.

(** Calls that leave the process, timers, and the entry into [predict]. *)
Inductive Event : Type :=
| EvWait (ms : Z)
| EvConsole (text : string)
| EvStat (path : string)
| EvReadFile (path : string)
| EvFetch (url : string)
| EvLoadLayersModel
| EvDecodePNG
| EvDecodeJPEG
| EvPredict (hasBitmap : bool).

(** The clock and the trace, newest event first. *)
Record World : Type := mkWorld { now : Z; trace : list Event }.

(** An asynchronous operation of a collaborator: how long it takes and how
    it settles. *)
Record IO (A : Type) : Type := mkIO { latency : Z; settle : Outcome A }.
Arguments mkIO {A} latency settle.
Arguments latency {A} i.
Arguments settle {A} i.

(** Code of an async function between its call and its settlement. *)
Definition M (A : Type) : Type := World -> Outcome A * World.

Definition ret {A : Type} (a : A) : M A := fun w => (Resolved a, w).

Definition throw {A : Type} (reason : Value) : M A := fun w => (Rejected reason, w).

Definition bind {A B : Type} (m : M A) (k : A -> M B) : M B :=
  fun w =>
    match m w with
    | (Resolved a, w') => k a w'
    | (Rejected r, w') => (Rejected r, w')
    end.

Definition tryCatch {A : Type} (m : M A) (handler : Value -> M A) : M A :=
  fun w =>
    match m w with
    | (Resolved a, w') => (Resolved a, w')
    | (Rejected r, w') => handler r w'
    end.

Definition liftO {A : Type} (o : Outcome A) : M A := fun w => (o, w).

Definition record (e : Event) : M unit :=
  fun w => (Resolved tt, mkWorld (now w) (e :: trace w)).

(** [await] of a collaborator's promise. *)
Definition await {A : Type} (i : IO A) : M A :=
  fun w => (settle i, mkWorld (now w + latency i) (trace w)).

(** Line 13: [const wait = ms => new Promise(r => setTimeout(r, ms))]. *)
Definition wait (ms : Z) : M unit :=
  fun w => (Resolved tt, mkWorld (now w + ms) (EvWait ms :: trace w)).

Declare Scope js_scope.
Delimit Scope js_scope with js.
Notation "x <- c1 ;; c2" := (bind c1 (fun x => c2))
  (at level 61, c1 at next level, right associativity) : js_scope.
Notation "' pat <- c1 ;; c2" :=
  (bind c1 (fun x => match x with pat => c2 end))
  (at level 61, pat pattern, c1 at next level, right associativity) : js_scope.
Notation "c1 ;; c2" := (bind c1 (fun _ => c2))
  (at level 61, right associativity) : js_scope.

(** The delays of the waits of a trace, newest first. *)
Fixpoint waitsOf (t : list Event) : list Z :=
  match t with
  | [] => []
  | EvWait ms :: rest => ms :: waitsOf rest
  | _ :: rest => waitsOf rest
  end.

(** The events of a trace that are input or output. *)
Definition isIOEvent (e : Event) : bool :=
  match e with
  | EvStat _ | EvReadFile _ | EvFetch _ | EvLoadLayersModel
  | EvDecodePNG | EvDecodeJPEG => true
  | _ => false
  end.

(* ================================================================= *)
(** ** Strings and patterns                                            *)
(* ================================================================= *)

(** [s.startsWith(p)] *)
Definition startsWith (s p : string) : bool := String.prefix p s.

(** [/p/.test(s)] for a pattern [p] without metacharacters: [p] occurs
    somewhere in [s]. *)
Fixpoint includes (p s : string) : bool :=
  String.prefix p s ||
  match s with
  | EmptyString => false
  | String _ s' => includes p s'
  end.

(** [/file:\/\/\//.test(s)] (lines 114, 158, 162, 192): unanchored. *)
Definition testFile (s : string) : bool := includes "file:///" s.

(** [(/png/).test(contentType)] and [(/jpe?g/).test(contentType)]; an absent
    content type is tested as the text ["null"] or ["undefined"], which
    matches neither. *)
Definition testPng (contentType : option string) : bool :=
  match contentType with
  | Some s => includes "png" s
  | None => false
  end.

Definition testJpeg (contentType : option string) : bool :=
  match contentType with
  | Some s => includes "jpeg" s || includes "jpg" s
  | None => false
  end.

(* ================================================================= *)
(** ** The external collaborators                                      *)
(* ================================================================= *)

Definition Buffer : Type := list Byte.byte.

(** A decoded bitmap of the codec. *)
Record Bitmap : Type := mkBitmap { bmWidth : nat; bmHeight : nat; bmData : Buffer }.

Record Stats : Type := mkStats { size : Z }.

(** The result of [parseDataUrl] on a string it accepts. *)
Record DataUrl : Type := mkDataUrl { contentType : string; toBuffer : Buffer }.

(** The result of [fType.fromBuffer] on a buffer it recognises. *)
Record FileTypeResult : Type := mkFileType { ext : string; mime : string }.

(** A [fetch] response: [headers.get("Content-Type")], [buffer()], [text()]. *)
Record Response : Type := mkResponse {
  headersContentType : option string;
  buffer : IO Buffer;
  text : IO string
}.

(** The body handed to [JSON.parse]: the file's bytes or the response text. *)
Inductive Body : Type :=
| BodyBuffer (b : Buffer)
| BodyText (s : string).

(** What [tf.loadLayersModel] is given: [tf.io.fileSystem(path)] or a URL. *)
Inductive ModelLocation : Type :=
| FileSystem (modelJsonPath : string)
| ModelUrl (url : string).

(* ================================================================= *)
(** ** [bufferToStream] (index.js, lines 32-41)                        *)
(* ================================================================= *)

(** The part of a [Readable] that [bufferToStream] exercises: the chunks
    pushed and not yet consumed, whether [push(null)] has marked the end,
    whether something was pushed after the end (which the stream reports as
    an error), and how often the [read] implementation was called. *)
Record ReadableState : Type := mkReadableState {
  queued : list Buffer;
  ended : bool;
  pushedAfterEnd : bool;
  readCalls : nat
}.

(** [this.push(chunk)]; [None] is [null], which marks the end (and changes
    nothing once the end is marked).  A chunk of length zero is dropped,
    also after the end; a chunk with bytes pushed after the end is the
    stream's push-after-end error. *)
Definition push (chunk : option Buffer) (s : ReadableState) : ReadableState :=
  match chunk with
  | None => mkReadableState (queued s) true (pushedAfterEnd s) (readCalls s)
  | Some [] => s
  | Some b =>
      if ended s then mkReadableState (queued s) true true (readCalls s)
      else
        mkReadableState (queued s ++ [b])%list false (pushedAfterEnd s) (readCalls s)
  end.

(** A readable stream: the [read] implementation it was built with and its
    state.  The stream is one object: whoever reads it changes the state
    the next reader finds. *)
Record Readable : Type := mkReadable {
  readImpl : ReadableState -> ReadableState;
  streamState : ReadableState
}.

(** Lines 32-41: [read()] pushes the whole buffer and then the end. *)
Definition bufferToStream (binary : Buffer) : Readable :=
  mkReadable (fun s => push None (push (Some binary) s))
             (mkReadableState [] false false 0).

(** A consumer that reads the stream to its end: it takes the queued
    chunks in order, calls [read] when the queue is empty and the end has
    not been pushed, and stops at the end.  [None] when the stream reports
    an error or [fuel] steps do not reach the end. *)
Fixpoint consume (fuel : nat) (r : Readable) : option Buffer :=
  match fuel with
  | O => None
  | S fuel' =>
      let s := streamState r in
      if pushedAfterEnd s then None
      else
        match queued s with
        | chunk :: rest =>
            option_map (app chunk)
              (consume fuel'
                 (mkReadable (readImpl r)
                    (mkReadableState rest (ended s) (pushedAfterEnd s) (readCalls s))))
        | [] =>
            if ended s then Some []
            else
              consume fuel'
                (mkReadable (readImpl r)
                   (readImpl r
                      (mkReadableState [] false (pushedAfterEnd s) (S (readCalls s)))))
        end
  end.

(** A stream that has been read to its end. *)
Definition readToEnd (r : Readable) : Prop :=
  queued (streamState r) = [] /\ ended (streamState r) = true.

(** What a decoder does with the stream it is handed: the promise it
    returns, and the stream as it leaves it. *)
Record Decoding : Type := mkDecoding {
  decoded : IO Bitmap;
  streamAfter : Readable
}.

(** The tensor runtime ([@tensorflow/tfjs-node]) as [predict] and
    [loadModel] use it.  [shapeOf] and [valuesOf] observe a tensor;
    [inputShape] is [(shape[1], shape[2], shape[3])] of
    [model.inputs[0]]; [tensor_data] is [logits.data()], whose entries may
    be any [Score]. *)
Record TensorRuntime : Type := mkTensorRuntime {
  Tensor : Type;
  LayersModel : Type;
  shapeOf : Tensor -> list nat;
  valuesOf : Tensor -> list Q;
  inputShape : LayersModel -> nat * nat * nat;
  browser_fromPixels : option Bitmap -> Outcome Tensor;
  toFloat : Tensor -> Tensor;
  image_resizeNearestNeighbor : Tensor -> nat * nat -> Outcome Tensor;
  scalar : Q -> Tensor;
  sub : Tensor -> Tensor -> Outcome Tensor;
  div : Tensor -> Tensor -> Outcome Tensor;
  reshape : Tensor -> list nat -> Outcome Tensor;
  model_predict : LayersModel -> Tensor -> Outcome Tensor;
  tensor_data : Tensor -> IO (list Score);
  loadLayersModel : ModelLocation -> IO LayersModel
}.

(** File system, network, codec and helper packages. *)
Record Env : Type := mkEnv {
  isImageUrl : string -> bool;
  url_fileURLToPath : string -> Outcome string;
  path_join : string -> string -> string;
  fs_stat : string -> IO (option Stats);
  fs_readFile : string -> IO Buffer;
  fType_fromBuffer : Buffer -> IO (option FileTypeResult);
  parseDataUrl : string -> option DataUrl;
  fetch : string -> IO Response;
  PImage_decodePNGFromStream : Readable -> Decoding;
  PImage_decodeJPEGFromStream : Readable -> Decoding;
  JSON_parse_labels : Body -> Outcome (option (list string))
}.

(* ================================================================= *)
(** ** The program: [retryOperation], [predict], the class             *)
(* ================================================================= *)

Local Open Scope js_scope.

(** Lines 15-30.  [operation()] settles with [{ cb }] or is rejected; a
    rejection is retried after [delay] while [times - 1 > 0], and otherwise
    passes on the [message] field of the reason.  [times] is a natural
    number (its only caller passes 20), so [times - 1 > 0] reads
    [times = S (S _)] and the retry runs with [times - 1].

    The handler destructures its reason, [({ message }) => ...].  On the
    reason [undefined] that destructuring throws inside the handler and the
    promise is left unsettled, which no [Outcome] describes: the function
    below is the loop for reasons other than [undefined], and statements
    about what it settles with say so. *)
Fixpoint retryOperation {R : Type} (operation : M (M R)) (delay : Z)
         (times : nat) (w : World) : Outcome R * World :=
  match operation w with
  | (Resolved cb, w1) => cb w1
  | (Rejected reason, w1) =>
      match times with
      | S (S _ as times') =>
          match wait delay w1 with
          | (_, w2) => retryOperation operation delay times' w2
          end
      | _ => (Rejected (getField "message" reason), w1)
      end
  end.

Section Program.

Variable rt : TensorRuntime.
Variable env : Env.

(** [this.model] once loaded: the layers model and [model.classes], absent
    when the metadata has no [labels] or could not be parsed. *)
Record Model : Type := mkModel {
  net : LayersModel rt;
  classes : option (list string)
}.

(** Lines 44-57, the callback of [tf.tidy] up to the tensor handed to
    [model.predict].  Releasing the intermediate tensors is not modelled. *)
Definition preprocess (imgElement : option Bitmap) (model : option Model)
  : Outcome (Tensor rt) :=
  obind (browser_fromPixels rt imgElement) (fun pixels =>
  let img := toFloat rt pixels in
  obind (match model with
         | Some m => Resolved m
         | None => Rejected (VError "TypeError" "Cannot read properties of undefined (reading 'inputs')")
         end) (fun m =>
  let '(shape1, shape2, shape3) := inputShape rt (net m) in
  obind (image_resizeNearestNeighbor rt img (shape1, shape2)) (fun img =>
  let offset := scalar rt (255 # 2) in
  obind (sub rt img offset) (fun centred =>
  obind (div rt centred offset) (fun normalized =>
  reshape rt normalized [1%nat; shape1; shape2; shape3]))))).

(** Lines 64-96 with the [await] of line 65: the ranking of the scores
    against [model.classes]; an absent label list fails at
    [classes.length]. *)
Definition getTopKClasses_async (logits : Tensor rt)
           (classes : option (list string)) : M (list ClassAndProb) :=
  values <- await (tensor_data rt logits) ;;
  match classes with
  | Some labels => ret (getTopKClasses values labels)
  | None => throw (VError "TypeError" "Cannot read properties of undefined (reading 'length')")
  end.

(** Lines 43-62. *)
Definition predict (imgElement : option Bitmap) (model : option Model)
  : M (list ClassAndProb) :=
  record (EvPredict (match imgElement with Some _ => true | None => false end)) ;;
  batched <- liftO (preprocess imgElement model) ;;
  match model with
  | Some m =>
      logits <- liftO (model_predict rt (net m) batched) ;;
      getTopKClasses_async logits (classes m)
  | None => throw (VError "TypeError" "Cannot read properties of undefined (reading 'predict')")
  end.

(** The fields [loadModel] leaves on the instance when it settles. *)
Record Fields : Type := mkFields {
  fError : option string;
  fModel : option Model
}.

Definition missingModelUrl : M Fields :=
  record (EvConsole "Missing model URL!") ;;
  ret (mkFields (Some "Missing model URL!") None).

(** The argument of the constructor and of [loadModel]:
    [{ modelUrl: ... }], whose [modelUrl] may be absent. *)
Record LoadParams : Type := mkLoadParams { modelUrl : option string }.

(** Lines 103-142.  The parameter [{ modelUrl }] is destructured first: on
    an absent argument that throws, before anything is written.  Every
    failure between [try] and [catch] is logged and nothing else: neither
    [this.error] nor [this.model] is written.  The assignment of
    [this.model] (line 133) precedes the parsing of the labels (line 134),
    so a metadata failure leaves a model without classes. *)
Definition loadModel (params : option LoadParams) : M Fields :=
  match params with
  | None =>
      throw (VError "TypeError"
               "Cannot destructure property 'modelUrl' of 'undefined' as it is undefined.")
  | Some p =>
  match modelUrl p with
  | None => missingModelUrl
  | Some u =>
      if String.eqb u "" then missingModelUrl
      else
        tryCatch
          ('(modelURL, body) <-
             (if testFile u then
                modelPath <- liftO (url_fileURLToPath env u) ;;
                metaDataPath <- liftO (url_fileURLToPath env (u ++ "metadata.json")) ;;
                let modelJsonPath := path_join env modelPath "model.json" in
                record (EvReadFile metaDataPath) ;;
                body <- await (fs_readFile env metaDataPath) ;;
                ret (FileSystem modelJsonPath, BodyBuffer body)
              else
                record (EvFetch (u ++ "metadata.json")) ;;
                response <- await (fetch env (u ++ "metadata.json")) ;;
                body <- await (text response) ;;
                ret (ModelUrl (u ++ "model.json"), BodyText body)) ;;
           record EvLoadLayersModel ;;
           loaded <- await (loadLayersModel rt modelURL) ;;
           match JSON_parse_labels env body with
           | Resolved labels => ret (mkFields None (Some (mkModel loaded labels)))
           | Rejected _ =>
               record (EvConsole "Error for loading model") ;;
               record (EvConsole "[@sashido/teachablemachine-node] -") ;;
               ret (mkFields None (Some (mkModel loaded None)))
           end)
          (fun _ =>
             record (EvConsole "Error for loading model") ;;
             record (EvConsole "[@sashido/teachablemachine-node] -") ;;
             ret (mkFields None None))
  end
  end.

(** The instance as the calls of [classify] see it: [this.error] is written
    before the constructor returns (no [await] precedes it), [this.model]
    is written when the last [await] of [loadModel] has settled, at
    [readyAt]. *)
Record Instance : Type := mkInstance {
  error : option string;
  model : option Model;
  readyAt : Z
}.

(** Lines 99-101: the constructor starts [loadModel] and returns; a
    rejection of [loadModel] is not observed by anyone. *)
Definition newInstance (params : option LoadParams) (w : World) : Instance :=
  match loadModel params w with
  | (Resolved f, w') => mkInstance (fError f) (fModel f) (now w')
  | (Rejected _, w') => mkInstance None None (now w')
  end.

(** [this.model] read at time [t]. *)
Definition thisModel (this : Instance) (t : Z) : option Model :=
  if readyAt this <=? t then model this else None.

(** Lines 144-152. *)
Definition checkModel {R : Type} (this : Instance) (cb : M R) : M (M R) :=
  fun w =>
    match thisModel this (now w) with
    | Some _ => (Resolved cb, w)
    | None => (Rejected (VObj [("message", VStr "Loading model")]), w)
    end.

(** Lines 183-210: where the bytes and the content type come from. *)
Definition resolveImage (imageUrl : string) : M (option string * Buffer) :=
  if startsWith imageUrl "data:image/" then
    match parseDataUrl env imageUrl with
    | Some data => ret (Some (contentType data), toBuffer data)
    | None => throw (VError "TypeError" "data.toBuffer is not a function")
    end
  else if testFile imageUrl then
    imagePath <- liftO (url_fileURLToPath env imageUrl) ;;
    record (EvConsole "imagePath:") ;;
    record (EvReadFile imagePath) ;;
    buffer <- await (fs_readFile env imagePath) ;;
    contentTypeRaw <- await (fType_fromBuffer env buffer) ;;
    match contentTypeRaw with
    | Some raw => record (EvConsole "contentTypeRaw:") ;; ret (Some (mime raw), buffer)
    | None => throw (VError "TypeError" "Cannot read properties of undefined (reading 'mime')")
    end
  else
    record (EvFetch imageUrl) ;;
    data <- await (fetch env imageUrl) ;;
    buffer <- await (buffer data) ;;
    ret (headersContentType data, buffer).

(** Lines 212-221: one stream is made of the buffer; two independent
    tests, no [else]; the bitmap stays absent when neither matches.  The
    JPEG decoder is handed the same stream object, as the PNG decoder left
    it when both tests pass. *)
Definition decodeBitmap (contentType : option string) (buffer : Buffer)
  : M (option Bitmap) :=
  let stream := bufferToStream buffer in
  '(imageBitmap, stream) <-
    (if testPng contentType then
       record EvDecodePNG ;;
       let decoding := PImage_decodePNGFromStream env stream in
       b <- await (decoded decoding) ;; ret (Some b, streamAfter decoding)
     else ret (None, stream)) ;;
  if testJpeg contentType then
    record EvDecodeJPEG ;;
    b <- await (decoded (PImage_decodeJPEGFromStream env stream)) ;; ret (Some b)
  else ret imageBitmap.

(** Lines 177-229. *)
Definition inference (this : Instance) (imageUrl : string)
  : M (list ClassAndProb) :=
  tryCatch
    ('(contentType, buffer) <- resolveImage imageUrl ;;
     imageBitmap <- decodeBitmap contentType buffer ;;
     fun w => predict imageBitmap (thisModel this (now w)) w)
    (fun error => throw (errorObject error)).

(** Lines 158-172: the checks of [classify] ahead of the retry loop. *)
Definition classifyChecks (this : Instance) (imageUrl : string) : M unit :=
  if negb (testFile imageUrl) && negb (startsWith imageUrl "data:image/")
     && negb (isImageUrl env imageUrl)
  then throw (errorObject (VStr "Image URL is not valid!"))
  else
    (if testFile imageUrl then
       path <- liftO (url_fileURLToPath env imageUrl) ;;
       record (EvStat path) ;;
       stats <- await (fs_stat env path) ;;
       match stats with
       | Some _ => ret tt
       | None => throw (errorObject (VStr "Image file:// URL does not exist!"))
       end
     else ret tt) ;;
    match error this with
    | Some e => throw (errorObject (VStr e))
    | None => ret tt
    end.

(** Lines 155-175. *)
Definition classify (this : Instance) (imageUrl : string)
  : M (list ClassAndProb) :=
  classifyChecks this imageUrl ;;
  retryOperation (checkModel this (inference this imageUrl)) 1000 20.

(** The argument of [classify]: [{ imageUrl: ... }], whose [imageUrl] may
    be absent ([None]). *)
Record ClassifyParams : Type := mkClassifyParams { imageUrl : option string }.

(** [classify] on any argument (lines 155-158).  An absent argument fails
    at the destructuring of line 156; an absent [imageUrl] passes the
    pattern test of line 158 as the text [undefined] and fails at
    [imageUrl.startsWith]; on a string locator the call is [classify]
    above. *)
Definition classifyCall (this : Instance) (params : option ClassifyParams)
  : M (list ClassAndProb) :=
  match params with
  | None =>
      throw (VError "TypeError"
               "Cannot destructure property 'imageUrl' of 'params' as it is undefined.")
  | Some p =>
      match imageUrl p with
      | None =>
          throw (VError "TypeError"
                   "Cannot read properties of undefined (reading 'startsWith')")
      | Some s => classify this s
      end
  end.

(** The world after [n] further waits of [delay]. *)
Fixpoint afterWaits (n : nat) (delay : Z) (w : World) : World :=
  match n with
  | O => w
  | S n' => afterWaits n' delay (mkWorld (now w + delay) (EvWait delay :: trace w))
  end.

End Program.

Arguments net {rt} m.
Arguments classes {rt} m.
Arguments error {rt} i.
Arguments model {rt} i.
Arguments readyAt {rt} i.
Arguments thisModel {rt} this t.
Arguments checkModel {rt R} this cb.

(* ================================================================= *)
(** ** What the pipeline relies on from the tensor runtime             *)
(* ================================================================= *)

(** The contract of the operations [predict] composes, each as far as it
    settles: pixel samples are bytes, nearest-neighbour resizing yields the
    requested height and width and only samples of its input, subtraction
    and division by a scalar act entry by entry, reshaping keeps the
    entries.  Arithmetic is exact (see the conventions at the top). *)
Record TensorRuntimeLaws (rt : TensorRuntime) : Prop := mkLaws {
  fromPixels_bytes : forall bmp t,
      browser_fromPixels rt (Some bmp) = Resolved t ->
      Forall (fun x => 0 <= x <= 255)%Q (valuesOf rt (toFloat rt t));
  resize_samples : forall t h w t',
      image_resizeNearestNeighbor rt t (h, w) = Resolved t' ->
      shapeOf rt t' = [h; w; nth 2 (shapeOf rt t) 0%nat] /\
      Forall (fun y => In y (valuesOf rt t)) (valuesOf rt t');
  scalar_value : forall q, valuesOf rt (scalar rt q) = [q];
  sub_scalar : forall t s q t',
      valuesOf rt s = [q] -> sub rt t s = Resolved t' ->
      shapeOf rt t' = shapeOf rt t /\
      valuesOf rt t' = map (fun x => x - q)%Q (valuesOf rt t);
  div_scalar : forall t s q t',
      valuesOf rt s = [q] -> div rt t s = Resolved t' ->
      shapeOf rt t' = shapeOf rt t /\
      valuesOf rt t' = map (fun x => x / q)%Q (valuesOf rt t);
  reshape_keeps : forall t s t',
      reshape rt t s = Resolved t' ->
      shapeOf rt t' = s /\ valuesOf rt t' = valuesOf rt t
}.

(** [(x - 127.5) / 127.5] *)
Definition normalize (x : Q) : Q := ((x - (255 # 2)) / (255 # 2))%Q.

(* ================================================================= *)
(** ** A small runtime and environment to run the program on           *)
(* ================================================================= *)

Module Sample.

(** Dense tensors: a shape and the entries in row-major order. *)
Record DenseTensor : Type := mkDense { dShape : list nat; dValues : list Q }.

(** A model that answers every input with the same scores. *)
Record FixedNet : Type := mkNet { nInput : nat * nat * nat; nLogits : list Q }.

Definition byteToQ (b : Byte.byte) : Q := inject_Z (Z.of_N (Byte.to_N b)).

(** The colour channels of RGBA pixel data. *)
Fixpoint rgbOfRgba (d : Buffer) : list Q :=
  match d with
  | r :: g :: b :: _ :: rest => byteToQ r :: byteToQ g :: byteToQ b :: rgbOfRgba rest
  | _ => []
  end.

Definition fromPixels (img : option Bitmap) : Outcome DenseTensor :=
  match img with
  | Some bmp => Resolved (mkDense [bmHeight bmp; bmWidth bmp; 3%nat] (rgbOfRgba (bmData bmp)))
  | None => Rejected (VError "Error" "pixels passed to tf.browser.fromPixels() can not be null")
  end.

Fixpoint gather (vals : list Q) (idxs : list nat) : option (list Q) :=
  match idxs with
  | [] => Some []
  | i :: rest =>
      match nth_error vals i, gather vals rest with
      | Some v, Some vs => Some (v :: vs)
      | _, _ => None
      end
  end.

(** The source position of each entry of an [h] x [w] nearest-neighbour
    resize of an [h0] x [w0] x [c0] tensor. *)
Definition sourceIndices (h0 w0 c0 h w : nat) : list nat :=
  flat_map (fun r =>
    flat_map (fun col =>
      map (fun ch => ((r * h0 / h) * w0 + (col * w0 / w)) * c0 + ch)%nat (seq 0 c0))
      (seq 0 w))
    (seq 0 h).

Definition resizeNearestNeighbor (t : DenseTensor) (hw : nat * nat)
  : Outcome DenseTensor :=
  let '(h, w) := hw in
  match dShape t with
  | [h0; w0; c0] =>
      match gather (dValues t) (sourceIndices h0 w0 c0 h w) with
      | Some vs => Resolved (mkDense [h; w; c0] vs)
      | None => Rejected (VError "Error" "resizeNearestNeighbor: malformed input")
      end
  | _ => Rejected (VError "Error" "resizeNearestNeighbor: expected rank 3")
  end.

Definition byScalar (op : Q -> Q -> Q) (t s : DenseTensor) : Outcome DenseTensor :=
  match dValues s with
  | [q] => Resolved (mkDense (dShape t) (map (fun x => op x q) (dValues t)))
  | _ => Rejected (VError "Error" "operands could not be broadcast together")
  end.

Definition reshapeTo (t : DenseTensor) (s : list nat) : Outcome DenseTensor :=
  if (fold_right Nat.mul 1 s =? List.length (dValues t))%nat
  then Resolved (mkDense s (dValues t))
  else Rejected (VError "Error" "Size(s) do not match").

Definition net3 : FixedNet := mkNet (1, 1, 3)%nat [1 # 10; 9 # 10; 5 # 10]%Q.

Definition runtime : TensorRuntime :=
  mkTensorRuntime DenseTensor FixedNet dShape dValues nInput
    fromPixels (fun t => t) resizeNearestNeighbor
    (fun q => mkDense [] [q]) (byScalar Qminus) (byScalar Qdiv) reshapeTo
    (fun n _ => Resolved (mkDense [1%nat; List.length (nLogits n)] (nLogits n)))
    (fun t => mkIO 0 (Resolved (map Num (dValues t))))
    (fun loc =>
       match loc with
       | ModelUrl u =>
           if String.eqb u "https://models.example/tm/model.json"
           then mkIO 2000 (Resolved net3)
           else mkIO 40 (Rejected (VError "Error" "Request for model.json failed"))
       | FileSystem p =>
           if String.eqb p "/models/tm/model.json"
           then mkIO 700 (Resolved net3)
           else mkIO 1 (Rejected (VError "Error" "ENOENT"))
       end).

Definition pixel : Bitmap := mkBitmap 1 1 [Byte.x00; Byte.x80; Byte.xff; Byte.xff].

(** A decoder that reads its stream to the end and answers with the one
    pixel when the stream delivered bytes. *)
Definition decoder (stream : Readable) : Decoding :=
  mkDecoding
    (match consume 3 stream with
     | Some (_ :: _) => mkIO 1 (Resolved pixel)
     | _ => mkIO 1 (Rejected (VError "Error" "no image data"))
     end)
    (mkReadable (readImpl stream)
                (mkReadableState [] true (pushedAfterEnd (streamState stream)) 1)).

Definition response (ct : string) (bytes : Buffer) (txt : string) : Response :=
  mkResponse (Some ct) (mkIO 5 (Resolved bytes)) (mkIO 5 (Resolved txt)).

Definition environment : Env :=
  mkEnv
    (fun s => startsWith s "http" && (includes ".png" s || includes ".jpg" s))
    (fun s => if startsWith s "file:///"
              then Resolved (String.substring 7 (String.length s - 7) s)
              else Rejected (VError "TypeError" "The URL must be of scheme file"))
    (fun a b => a ++ b)
    (fun p => if String.eqb p "/images/cat.png"
              then mkIO 2 (Resolved (Some (mkStats 4)))
              else mkIO 2 (Rejected (VError "Error" "ENOENT: no such file or directory")))
    (fun p => if String.eqb p "/images/cat.png" || String.eqb p "/models/tm/metadata.json"
              then mkIO 3 (Resolved [Byte.x89; Byte.x50; Byte.x4e; Byte.x47])
              else mkIO 3 (Rejected (VError "Error" "ENOENT: no such file or directory")))
    (fun _ => mkIO 0 (Resolved (Some (mkFileType "png" "image/png"))))
    (fun s => if startsWith s "data:image/gif"
              then Some (mkDataUrl "image/gif" [Byte.x47; Byte.x49; Byte.x46])
              else if startsWith s "data:image/png"
              then Some (mkDataUrl "image/png" [Byte.x89; Byte.x50; Byte.x4e; Byte.x47])
              else None)
    (fun u => if String.eqb u "https://models.example/tm/metadata.json"
              then mkIO 500 (Resolved (response "application/json" [] "{ labels }"))
              else if String.eqb u "https://images.example/cat.png"
              then mkIO 30 (Resolved (response "image/png" [Byte.x89; Byte.x50; Byte.x4e; Byte.x47] ""))
              else mkIO 30 (Rejected (VError "FetchError" "request failed")))
    decoder
    decoder
    (fun _ => Resolved (Some ["a"; "b"; "c"])).

(** The world at process start. *)
Definition start : World := mkWorld 0 [].

(** An instance whose model is served and loads in 2505 time units, one
    whose model cannot be fetched, and one built with an argument that has
    no model URL. *)
Definition served : Instance runtime :=
  newInstance runtime environment
              (Some (mkLoadParams (Some "https://models.example/tm/"))) start.

Definition unreachable : Instance runtime :=
  newInstance runtime environment
              (Some (mkLoadParams (Some "https://nowhere.example/tm/"))) start.

Definition unconfigured : Instance runtime :=
  newInstance runtime environment (Some (mkLoadParams None)) start.

(** An instance built without any argument. *)
Definition bare : Instance runtime :=
  newInstance runtime environment None start.

End Sample.

(* ================================================================= *)
(** ** Notions used in the statements                                  *)
(* ================================================================= *)

(** A piece of code that performs no wait. *)
Definition keepsWaits {A : Type} (m : M A) : Prop :=
  forall w, waitsOf (trace (snd (m w))) = waitsOf (trace w).

Definition notWait (e : Event) : Prop :=
  match e with
  | EvWait _ => False
  | _ => True
  end.

(** The model is absent at each of the first [n] polls of a retry loop
    entered in world [w] with the given delay. *)
Definition pendingFor {rt : TensorRuntime} (this : Instance rt)
           (delay : Z) (n : nat) (w : World) : Prop :=
  forall j : nat, (j < n)%nat -> thisModel this (now w + delay * Z.of_nat j) = None.

(** The model is present at poll number [n + 1]. *)
Definition readyAtPoll {rt : TensorRuntime} (this : Instance rt)
           (delay : Z) (n : nat) (w : World) : Prop :=
  thisModel this (now w + delay * Z.of_nat n) <> None.

(** The instance with [this.error] unset: its checks are the checks on the
    image locator alone. *)
Definition withoutError {rt : TensorRuntime} (this : Instance rt) : Instance rt :=
  mkInstance rt None (model this) (readyAt this).

(** The test of line 158 that rejects a locator. *)
Definition invalidImageUrl (env : Env) (imageUrl : string) : bool :=
  negb (testFile imageUrl) && negb (startsWith imageUrl "data:image/")
  && negb (isImageUrl env imageUrl).


(** Events that reach the file system, and events that reach the network. *)
Definition touchesFileSystem (e : Event) : bool :=
  match e with
  | EvStat _ | EvReadFile _ => true
  | _ => false
  end.

Definition touchesNetwork (e : Event) : bool :=
  match e with
  | EvFetch _ => true
  | _ => false
  end.

(** A piece of code that only adds events satisfying [P] to the trace. *)
Definition emitsOnly {A : Type} (P : Event -> bool) (m : M A) : Prop :=
  forall w, exists new,
      trace (snd (m w)) = (new ++ trace w)%list /\ forallb P new = true.
(* ================================================================= *)
(** * Properties                                                       *)
(* ================================================================= *)

Example rank_three :
  getTopKClasses [Num (1#10); Num (9#10); Num (5#10)] ["cat"; "dog"; "fish"]
  = [mkCP (Some "dog") (Num (9#10)); mkCP (Some "fish") (Num (5#10));
     mkCP (Some "cat") (Num (1#10))].
Proof. reflexivity. Qed.

(** *** The order of scores *)

Lemma scoreLe_Num (x y : Q) : scoreLe (Num x) (Num y) <-> (x <= y)%Q.
Proof. unfold scoreLe. simpl. symmetry. apply Qle_lteq. Qed.

Lemma scoreEq_sym a b : scoreEq a b -> scoreEq b a.
Proof. destruct a, b; simpl; try tauto. apply Qeq_sym. Qed.

Lemma scoreLt_or_ge a b : notNaN a -> notNaN b -> scoreLt a b \/ scoreLe b a.
Proof.
  destruct a as [|x| |], b as [|y| |]; unfold scoreLe; simpl; try tauto.
  intros _ _. destruct (Qlt_le_dec x y) as [L | G]; [now left|].
  right. now apply Qle_lteq.
Qed.

Lemma scoreLe_trans a b c : scoreLe a b -> scoreLe b c -> scoreLe a c.
Proof.
  destruct a as [|x| |], b as [|y| |], c as [|z| |];
    try (unfold scoreLe; simpl; tauto).
  rewrite !scoreLe_Num. apply Qle_trans.
Qed.

Lemma compareFn_pos (x y : ValueAndIndex) :
  notNaN (value x) -> notNaN (value y) ->
  positive (compareFn x y) = true <-> scoreLt (value x) (value y).
Proof.
  unfold compareFn.
  destruct (value x) as [|a| |], (value y) as [|b| |];
    cbn [scoreSub positive scoreLt notNaN];
    try tauto; try (intros _ _; split; [discriminate | tauto]);
    try (intros _ _; split; [tauto | reflexivity]).
  intros _ _. unfold Qminus.
  destruct (0 ?= b + - a)%Q eqn:E.
  - split; [discriminate|]. intro H. apply Qlt_minus_iff in H.
    rewrite Qlt_alt in H. congruence.
  - split; [|reflexivity]. intros _. apply Qlt_minus_iff. now rewrite Qlt_alt.
  - split; [discriminate|]. intro H. apply Qlt_minus_iff in H.
    rewrite Qlt_alt in H. congruence.
Qed.

(** *** Helper lemmas on the ranker *)

Lemma sortInsert_perm cmp x l : Permutation (sortInsert cmp x l) (x :: l).
Proof.
  induction l as [|y l IH]; simpl; [reflexivity|].
  destruct (positive (cmp x y)); [|reflexivity].
  rewrite IH. apply perm_swap.
Qed.

Lemma arraySort_perm cmp l : Permutation (arraySort cmp l) l.
Proof.
  induction l as [|x l IH]; simpl; [constructor|].
  rewrite sortInsert_perm. now constructor.
Qed.

Lemma arraySort_length cmp l : List.length (arraySort cmp l) = List.length l.
Proof. apply Permutation_length, arraySort_perm. Qed.

Lemma rankedBefore_le p q : rankedBefore p q -> scoreLe (value q) (value p).
Proof.
  intros [H | [H _]].
  - now left.
  - right. now apply scoreEq_sym.
Qed.

Lemma sortInsert_sorted x l :
  notNaN (value x) ->
  Forall (fun z => notNaN (value z)) l ->
  StronglySorted rankedBefore l ->
  Forall (fun z => (index x < index z)%nat) l ->
  StronglySorted rankedBefore (sortInsert compareFn x l).
Proof.
  intro Nx. induction l as [|y l IH]; intros Nl Hs Hi; simpl.
  - repeat constructor.
  - inversion Hs as [|? ? Hs' Hy]; subst.
    inversion Hi as [|? ? Hxy Hi']; subst.
    inversion Nl as [|? ? Ny Nl']; subst.
    destruct (positive (compareFn x y)) eqn:E.
    + (* x scores less than y: x goes behind y *)
      apply compareFn_pos in E; try assumption.
      constructor; [now apply IH|].
      rewrite Forall_forall. intros z Hz.
      apply (Permutation_in _ (sortInsert_perm compareFn x l)) in Hz.
      destruct Hz as [<- | Hz]; [now left|].
      rewrite Forall_forall in Hy. now apply Hy.
    + (* y scores no more than x: x keeps its place in front *)
      assert (Hle : scoreLe (value y) (value x)).
      { destruct (scoreLt_or_ge (value x) (value y) Nx Ny) as [L | G];
          [|exact G].
        apply compareFn_pos in L; try assumption. congruence. }
      constructor; [assumption|].
      assert (Hz : forall z, In z (y :: l) ->
                             scoreLe (value z) (value x) /\
                             (index x < index z)%nat).
      { rewrite Forall_forall in Hy, Hi'. intros z [<- | Hz].
        - now split.
        - split; [|now apply Hi'].
          apply scoreLe_trans with (value y); [|assumption].
          apply rankedBefore_le. now apply Hy. }
      rewrite Forall_forall. intros z Hin.
      destruct (Hz z Hin) as [[L | Q] Hidx]; [now left|].
      right. split; [now apply scoreEq_sym | assumption].
Qed.

Lemma pushValuesFrom_index i values :
  Forall (fun z => (i <= index z)%nat) (pushValuesFrom i values).
Proof.
  revert i. induction values as [|v rest IH]; intro i; simpl; constructor.
  - simpl. lia.
  - eapply Forall_impl; [|apply (IH (S i))]. simpl. intros; lia.
Qed.

Lemma pushValuesFrom_nth i values p :
  In p (pushValuesFrom i values) ->
  (i <= index p)%nat /\ nth_error values (index p - i) = Some (value p).
Proof.
  revert i. induction values as [|v rest IH]; intros i; simpl; [tauto|].
  intros [<- | H]; simpl.
  - split; [lia|]. now rewrite Nat.sub_diag.
  - destruct (IH _ H) as [Hi Hn]. split; [lia|].
    replace (index p - i)%nat with (S (index p - S i)) by lia. exact Hn.
Qed.

Lemma pushValuesFrom_notNaN i values :
  Forall notNaN values ->
  Forall (fun z => notNaN (value z)) (pushValuesFrom i values).
Proof.
  intro H. revert i. induction H as [|v rest Hv _ IH]; intro i; simpl;
    constructor; [assumption | apply IH].
Qed.

Lemma arraySort_sorted i values :
  Forall notNaN values ->
  StronglySorted rankedBefore (arraySort compareFn (pushValuesFrom i values)).
Proof.
  intro H. revert i. induction H as [|v rest Hv Hrest IH]; intro i; simpl;
    [constructor|].
  apply sortInsert_sorted; [exact Hv | | apply IH |].
  { rewrite Forall_forall. intros z Hz.
    apply (Permutation_in _ (arraySort_perm compareFn _)) in Hz.
    pose proof (pushValuesFrom_notNaN (S i) rest Hrest) as N.
    rewrite Forall_forall in N. now apply N. }
  rewrite Forall_forall. intros z Hz.
  apply (Permutation_in _ (arraySort_perm compareFn _)) in Hz.
  pose proof (pushValuesFrom_index (S i) rest) as H.
  rewrite Forall_forall in H. specialize (H z Hz). simpl. lia.
Qed.

Lemma pushValuesFrom_length i values :
  List.length (pushValuesFrom i values) = List.length values.
Proof.
  revert i. induction values; intro i; simpl; [reflexivity|]. now rewrite IHvalues.
Qed.

Lemma pushClassesAndProbs_emit classes l :
  pushClassesAndProbs classes (map index l) (map value l)
  = map (emit classes) l.
Proof.
  induction l as [|p l IH]; simpl; [reflexivity|]. now rewrite IH.
Qed.

Lemma getTopKClasses_emit values classes :
  getTopKClasses values classes
  = map (emit classes)
        (firstn (Nat.min (List.length classes) (List.length values))
                (arraySort compareFn (valuesAndIndices values))).
Proof. unfold getTopKClasses. apply pushClassesAndProbs_emit. Qed.

(** *** Claims on the ranker *)

(** C6, as the code has it.  For a score vector without NaN the ranked
    output is ordered by score descending, ties broken by original index
    ascending: the sorted pairs are a rearrangement of the indexed scores in
    which every pair stands before all pairs of lower score and before all
    pairs of equal score and higher index; the output is the image of the
    first [k] of them, in that order.  On scores [[0.5, 0.5]] and labels
    [["a","b"]] the output is [[{a,0.5},{b,0.5}]]. *)
Theorem rank_order_stable (values : list Score) (classes : list string)
        (Hnum : Forall notNaN values) :
  (exists ranked rest : list ValueAndIndex,
      Permutation (ranked ++ rest) (valuesAndIndices values) /\
      StronglySorted rankedBefore (ranked ++ rest) /\
      (forall p, In p (ranked ++ rest) ->
                 nth_error values (index p) = Some (value p)) /\
      List.length ranked = Nat.min (List.length classes) (List.length values) /\
      getTopKClasses values classes = map (emit classes) ranked)
  /\ getTopKClasses [Num (1#2); Num (1#2)] ["a"; "b"]
     = [mkCP (Some "a") (Num (1#2)); mkCP (Some "b") (Num (1#2))].
Proof.
  split; [|reflexivity].
  set (k := Nat.min (List.length classes) (List.length values)).
  set (sorted := arraySort compareFn (valuesAndIndices values)).
  exists (firstn k sorted), (skipn k sorted).
  rewrite firstn_skipn. repeat split.
  - apply arraySort_perm.
  - now apply arraySort_sorted.
  - intros p Hp.
    apply (Permutation_in _ (arraySort_perm compareFn _)) in Hp.
    apply pushValuesFrom_nth in Hp. destruct Hp as [_ Hp].
    now rewrite Nat.sub_0_r in Hp.
  - rewrite length_firstn. unfold sorted, valuesAndIndices.
    rewrite arraySort_length, pushValuesFrom_length. unfold k. lia.
  - apply getTopKClasses_emit.
Qed.

(** C6 on the tie of the specification: both pairs are ranked, the one of
    index 0 first. *)
Lemma rank_order_stable_witness :
  exists ranked rest : list ValueAndIndex,
    Permutation (ranked ++ rest) [mkVI (Num (1#2)) 0; mkVI (Num (1#2)) 1] /\
    StronglySorted rankedBefore (ranked ++ rest) /\
    getTopKClasses [Num (1#2); Num (1#2)] ["a"; "b"] = map (emit ["a"; "b"]) ranked.
Proof.
  destruct (rank_order_stable [Num (1#2); Num (1#2)] ["a"; "b"])
    as [(ranked & rest & Hp & Hs & _ & _ & He) _].
  - repeat constructor.
  - exists ranked, rest. auto.
Defined.

(** A NaN is neither above, below nor equal to any score: a list of two or
    more pairs that holds one is in the claimed order in no arrangement. *)
Lemma nan_never_ranked (l : list ValueAndIndex) (p : ValueAndIndex) :
  In p l -> value p = NaN -> (2 <= List.length l)%nat ->
  ~ StronglySorted rankedBefore l.
Proof.
  intros Hin Hnan Hlen Hs.
  assert (Hno : forall q, ~ rankedBefore p q /\ ~ rankedBefore q p).
  { intro q. unfold rankedBefore. rewrite Hnan.
    split; intros [H | [H _]]; destruct (value q); exact H. }
  inversion Hs as [|x rest Hrest Hall E]; subst; [inversion Hin|].
  rewrite Forall_forall in Hall. destruct Hin as [-> | Hin].
  - destruct rest as [|y rest]; [simpl in Hlen; lia|].
    apply (proj1 (Hno y)), Hall. now left.
  - apply (proj2 (Hno x)), Hall, Hin.
Qed.

(** C6, as stated, fails on a score vector that holds a NaN: the
    comparator is then NaN, nothing is moved, and on [[0.25, NaN, 0.5]] the
    output keeps the input order, with 0.5 ranked behind 0.25.  Nor does
    the failure hang on the order an engine leaves such an array in: no
    arrangement of the three pairs is in the claimed order. *)
Lemma rank_order_nan_counterexample :
  getTopKClasses [Num (1#4); NaN; Num (1#2)] ["a"; "b"; "c"]
  = [mkCP (Some "a") (Num (1#4)); mkCP (Some "b") NaN;
     mkCP (Some "c") (Num (1#2))]
  /\ scoreLt (Num (1#4)) (Num (1#2))
  /\ ~ rankedBefore (mkVI (Num (1#4)) 0) (mkVI (Num (1#2)) 2)
  /\ (forall l : list ValueAndIndex,
         Permutation (valuesAndIndices [Num (1#4); NaN; Num (1#2)]) l ->
         ~ StronglySorted rankedBefore l).
Proof.
  split; [reflexivity|]. split; [reflexivity|]. split.
  - intros [H | [H _]]; simpl in H; discriminate H.
  - intros l Hp. apply (nan_never_ranked l (mkVI NaN 1)).
    + apply (Permutation_in _ Hp). simpl. auto.
    + reflexivity.
    + rewrite <- (Permutation_length Hp). simpl. lia.
Qed.

(** C2, as the code has it.  [getTopKClasses] returns exactly
    [k = min(labels.length, scores.length)] entries, the images of the first
    [k] sorted pairs in order.  A pair among them whose index is beyond the
    label list is not skipped: it is emitted with an absent class name (the
    lookup yields [undefined], it does not fail); a pair whose index is
    within the label list carries that label. *)
Theorem rank_truncation (values : list Score) (classes : list string) :
  let k := Nat.min (List.length classes) (List.length values) in
  let sorted := arraySort compareFn (valuesAndIndices values) in
  List.length (getTopKClasses values classes) = k /\
  forall (i : nat) (p : ValueAndIndex),
    (i < k)%nat -> nth_error sorted i = Some p ->
    exists e, nth_error (getTopKClasses values classes) i = Some e /\
              score e = value p /\
              class e = nth_error classes (index p) /\
              ((List.length classes <= index p)%nat -> class e = None) /\
              ((index p < List.length classes)%nat ->
               exists c, class e = Some c).
Proof.
  intros k sorted. rewrite getTopKClasses_emit. fold k. fold sorted. split.
  - rewrite length_map, length_firstn. unfold sorted, valuesAndIndices.
    rewrite arraySort_length, pushValuesFrom_length. unfold k. lia.
  - intros i p Hi Hp. exists (emit classes p). split.
    + rewrite nth_error_map, nth_error_firstn.
      destruct (Nat.ltb_spec i k) as [_ | F]; [|lia]. now rewrite Hp.
    + simpl. repeat split.
      * intro H. now apply nth_error_None.
      * intro H. destruct (nth_error classes (index p)) eqn:E; [eauto|].
        apply nth_error_None in E. lia.
Qed.

(** C2, as stated, fails: with scores [[0.1, 0.2, 0.9]] and two labels the
    best pair has index 2, beyond the label list; the code emits it with an
    absent class name instead of skipping it, so its output differs from the
    skipping policy's. *)
Lemma rank_skipping_counterexample :
  getTopKClasses [Num (1#10); Num (2#10); Num (9#10)] ["a"; "b"]
  = [mkCP None (Num (9#10)); mkCP (Some "b") (Num (2#10))]
  /\ rankSkipping [Num (1#10); Num (2#10); Num (9#10)] ["a"; "b"]
     = [mkCP (Some "b") (Num (2#10)); mkCP (Some "a") (Num (1#10))]
  /\ getTopKClasses [Num (1#10); Num (2#10); Num (9#10)] ["a"; "b"]
     <> rankSkipping [Num (1#10); Num (2#10); Num (9#10)] ["a"; "b"].
Proof. repeat split. vm_compute. discriminate. Qed.


Local Open Scope list_scope.
(** *** The monad and the trace *)

Lemma afterWaits_now n d w : now (afterWaits n d w) = now w + d * Z.of_nat n.
Proof.
  revert w. induction n as [|n IH]; intro w.
  - simpl. lia.
  - cbn [afterWaits]. rewrite IH. cbn [now]. lia.
Qed.

Lemma afterWaits_trace n d w :
  trace (afterWaits n d w) = repeat (EvWait d) n ++ trace w.
Proof.
  revert w. induction n as [|n IH]; intro w; [reflexivity|].
  cbn [afterWaits]. rewrite IH. cbn [trace].
  change (EvWait d :: trace w) with ([EvWait d] ++ trace w).
  rewrite app_assoc. f_equal.
  change (repeat (EvWait d) n ++ [EvWait d] = repeat (EvWait d) (S n)).
  symmetry. apply repeat_cons.
Qed.

Lemma waitsOf_repeat d n t :
  waitsOf (repeat (EvWait d) n ++ t) = repeat d n ++ waitsOf t.
Proof. induction n as [|n IH]; simpl; [reflexivity|]. now rewrite IH. Qed.

Lemma afterWaits_waits n d w :
  waitsOf (trace (afterWaits n d w)) = repeat d n ++ waitsOf (trace w).
Proof. rewrite afterWaits_trace. apply waitsOf_repeat. Qed.

Lemma keepsWaits_ret {A} (a : A) : keepsWaits (ret a).
Proof. intro w. reflexivity. Qed.

Lemma keepsWaits_throw {A} v : keepsWaits (@throw A v).
Proof. intro w. reflexivity. Qed.

Lemma keepsWaits_liftO {A} (o : Outcome A) : keepsWaits (liftO o).
Proof. intro w. reflexivity. Qed.

Lemma keepsWaits_await {A} (i : IO A) : keepsWaits (await i).
Proof. intro w. reflexivity. Qed.

Lemma keepsWaits_record e : notWait e -> keepsWaits (record e).
Proof. intros H w. destruct e; simpl in *; tauto. Qed.

Lemma keepsWaits_bind {A B} (m : M A) (k : A -> M B) :
  keepsWaits m -> (forall a, keepsWaits (k a)) -> keepsWaits (bind m k).
Proof.
  intros Hm Hk w. unfold bind. specialize (Hm w).
  destruct (m w) as [[a | r] w']; simpl in *.
  - now rewrite Hk.
  - assumption.
Qed.

Lemma keepsWaits_tryCatch {A} (m : M A) (h : Value -> M A) :
  keepsWaits m -> (forall r, keepsWaits (h r)) -> keepsWaits (tryCatch m h).
Proof.
  intros Hm Hh w. unfold tryCatch. specialize (Hm w).
  destruct (m w) as [[a | r] w']; simpl in *.
  - assumption.
  - now rewrite Hh.
Qed.

Create HintDb waits.
#[local] Hint Resolve keepsWaits_ret keepsWaits_throw keepsWaits_liftO
  keepsWaits_await keepsWaits_bind keepsWaits_tryCatch : waits.
#[local] Hint Extern 1 (keepsWaits (record _)) =>
  (apply keepsWaits_record; exact I) : waits.

(** Splits the tests and matches of a piece of code, then closes the leaves
    with the [waits] hints. *)
Ltac keeps_waits :=
  repeat first
    [ progress intros
    | match goal with
      | |- keepsWaits (if ?b then _ else _) => destruct b
      | |- keepsWaits (match ?x with _ => _ end) => destruct x
      | |- keepsWaits (bind _ _) => apply keepsWaits_bind
      | |- keepsWaits (tryCatch _ _) => apply keepsWaits_tryCatch
      end
    | solve [auto with waits] ].

Section PipelineFacts.

Variable rt : TensorRuntime.
Variable env : Env.

Lemma predict_keepsWaits img (m : option (Model rt)) : keepsWaits (predict rt img m).
Proof. unfold predict, getTopKClasses_async. keeps_waits. Qed.

Lemma resolveImage_keepsWaits s : keepsWaits (resolveImage env s).
Proof. unfold resolveImage. keeps_waits. Qed.

Lemma decodeBitmap_keepsWaits ct buf : keepsWaits (decodeBitmap env ct buf).
Proof. unfold decodeBitmap. keeps_waits. Qed.

Lemma inference_keepsWaits this s : keepsWaits (inference rt env this s).
Proof.
  unfold inference. apply keepsWaits_tryCatch; [|keeps_waits].
  apply keepsWaits_bind; [apply resolveImage_keepsWaits|].
  intros [ct buf]. apply keepsWaits_bind; [apply decodeBitmap_keepsWaits|].
  intros bmp w. apply predict_keepsWaits.
Qed.

Lemma classifyChecks_keepsWaits this s : keepsWaits (classifyChecks rt env this s).
Proof. unfold classifyChecks. keeps_waits. Qed.

End PipelineFacts.

(** *** The retry loop over [checkModel] *)

Section RetryFacts.

Variable rt : TensorRuntime.
Variable R : Type.
Variable this : Instance rt.
Variable cb : M R.
Variable delay : Z.

Lemma retry_ready times w :
  thisModel this (now w) <> None ->
  retryOperation (checkModel this cb) delay times w = cb w.
Proof.
  intro H. destruct times; simpl; unfold checkModel;
    destruct (thisModel this (now w)); congruence.
Qed.

Lemma retry_pending times w :
  thisModel this (now w) = None ->
  retryOperation (checkModel this cb) delay (S (S times)) w
  = retryOperation (checkModel this cb) delay (S times) (afterWaits 1 delay w).
Proof.
  intro H. cbn [retryOperation]. unfold checkModel at 1. now rewrite H.
Qed.

Lemma retry_last times w :
  (times <= 1)%nat ->
  thisModel this (now w) = None ->
  retryOperation (checkModel this cb) delay times w
  = (Rejected (VStr "Loading model"), w).
Proof.
  intros Ht H.
  destruct times as [|[|times]]; [| |lia];
    simpl; unfold checkModel; now rewrite H.
Qed.

(** Ready at poll [n + 1], not before: the callback runs after [n] waits. *)
Lemma retry_ready_at n : forall times w,
  (n < times)%nat ->
  pendingFor this delay n w ->
  readyAtPoll this delay n w ->
  retryOperation (checkModel this cb) delay times w = cb (afterWaits n delay w).
Proof.
  induction n as [|n IH]; intros times w Hlt Hp Hr.
  - apply retry_ready. unfold readyAtPoll in Hr.
    now replace (now w + delay * Z.of_nat 0) with (now w) in Hr by lia.
  - destruct times as [|[|times]]; [lia|lia|].
    rewrite retry_pending.
    + rewrite (IH (S times) (afterWaits 1 delay w)); [reflexivity|lia| |].
      * intros j Hj. cbn [afterWaits now].
        replace (now w + delay + delay * Z.of_nat j)
          with (now w + delay * Z.of_nat (S j)) by lia.
        apply Hp. lia.
      * unfold readyAtPoll in *. cbn [afterWaits now].
        now replace (now w + delay + delay * Z.of_nat n)
          with (now w + delay * Z.of_nat (S n)) by lia.
    + specialize (Hp 0%nat ltac:(lia)).
      now replace (now w + delay * Z.of_nat 0) with (now w) in Hp by lia.
Qed.

(** Absent at every poll: the budget runs out after [times - 1] waits. *)
Lemma retry_timeout : forall times w,
  (1 <= times)%nat ->
  pendingFor this delay times w ->
  retryOperation (checkModel this cb) delay times w
  = (Rejected (VStr "Loading model"), afterWaits (times - 1) delay w).
Proof.
  induction times as [|times IH]; intros w Hge Hp; [lia|].
  assert (H0 : thisModel this (now w) = None).
  { specialize (Hp 0%nat ltac:(lia)).
    now replace (now w + delay * Z.of_nat 0) with (now w) in Hp by lia. }
  destruct times as [|times].
  - now apply retry_last.
  - rewrite retry_pending by assumption.
    rewrite IH; [|lia|].
    + replace (S times - 1)%nat with times by lia.
      replace (S (S times) - 1)%nat with (S times) by lia. reflexivity.
    + intros j Hj. cbn [afterWaits now].
      replace (now w + delay + delay * Z.of_nat j)
        with (now w + delay * Z.of_nat (S j)) by lia.
      apply Hp. lia.
Qed.


End RetryFacts.

(** *** The checks of [classify] and the rejections of [inference] *)

Section CheckFacts.

Variable rt : TensorRuntime.
Variable env : Env.

Lemma classify_checks_failed this s w v w' :
  classifyChecks rt env this s w = (Rejected v, w') ->
  classify rt env this s w = (Rejected v, w').
Proof. intro H. unfold classify, bind. now rewrite H. Qed.

Lemma classify_checks_passed this s w w1 :
  classifyChecks rt env this s w = (Resolved tt, w1) ->
  classify rt env this s w
  = retryOperation (checkModel this (inference rt env this s)) 1000 20 w1.
Proof. intro H. unfold classify, bind. now rewrite H. Qed.

Lemma classifyChecks_invalid this s w :
  invalidImageUrl env s = true ->
  classifyChecks rt env this s w
  = (Rejected (errorObject (VStr "Image URL is not valid!")), w).
Proof.
  unfold invalidImageUrl, classifyChecks. intro H. now rewrite H.
Qed.

(** With [this.error] set the checks end as they do without it, except
    that passing them is replaced by the rejection with the stored error. *)
Lemma classifyChecks_with_error this e s w :
  error this = Some e ->
  classifyChecks rt env this s w
  = match classifyChecks rt env (withoutError this) s w with
    | (Resolved _, w') => (Rejected (errorObject (VStr e)), w')
    | (Rejected v, w') => (Rejected v, w')
    end.
Proof.
  intro He. unfold classifyChecks, withoutError. cbn [error]. rewrite He.
  destruct (negb (testFile s) && negb (startsWith s "data:image/")
            && negb (isImageUrl env s)); [reflexivity|].
  unfold bind, liftO, record, await, ret, throw.
  destruct (testFile s); [|reflexivity].
  destruct (url_fileURLToPath env s) as [p | r]; [|reflexivity].
  destruct (settle (fs_stat env p)) as [[st |] | r]; reflexivity.
Qed.


Lemma inference_rejections this s w v w' :
  inference rt env this s w = (Rejected v, w') -> isErrorObject v = true.
Proof.
  unfold inference, tryCatch, throw.
  match goal with |- context [bind ?m ?k w] => destruct (bind m k w) as [[a | r] w2] end;
    intro H; inversion H. reflexivity.
Qed.


(** No failure of [loadModel] on a present locator is stored. *)
Lemma loadModel_error_unset u w f w' :
  u <> ""%string ->
  loadModel rt env (Some (mkLoadParams (Some u))) w = (Resolved f, w') ->
  fError rt f = None.
Proof.
  intros Hu. unfold loadModel. cbn [modelUrl].
  destruct (String.eqb_spec u ""); [contradiction|].
  unfold tryCatch.
  match goal with |- context [bind ?m ?k w] => generalize (eq_refl (bind m k w));
    destruct (bind m k w) as [[a | r] w2] at 2 3 end.
  - intros E H. inversion H; subst. revert E.
    unfold bind at 1.
    match goal with |- context [match ?x with _ => _ end = _] =>
      destruct x as [[[loc body] | r] w3] end; [|discriminate].
    unfold bind, record, await, ret.
    destruct (settle (loadLayersModel rt loc)); [|discriminate].
    destruct (JSON_parse_labels env body); intro E; inversion E; reflexivity.
  - intros _ H. unfold bind, record, ret in H. inversion H. reflexivity.
Qed.

Lemma loadModel_missing p w :
  modelUrl p = None \/ modelUrl p = Some ""%string ->
  loadModel rt env (Some p) w
  = (Resolved (mkFields rt (Some "Missing model URL!"%string) None),
     mkWorld (now w) (EvConsole "Missing model URL!" :: trace w)).
Proof. unfold loadModel. intros [-> | ->]; reflexivity. Qed.

Lemma newInstance_missing p w :
  modelUrl p = None \/ modelUrl p = Some ""%string ->
  newInstance rt env (Some p) w
  = mkInstance rt (Some "Missing model URL!"%string) None (now w).
Proof.
  intro H. unfold newInstance. now rewrite (loadModel_missing _ _ H).
Qed.

(** A failed check settles the call, and no check waits. *)
Lemma classify_rejected_by_checks this s w v w' :
  classifyChecks rt env this s w = (Rejected v, w') ->
  classify rt env this s w = (Rejected v, w') /\
  waitsOf (trace w') = waitsOf (trace w).
Proof.
  intro H. split; [now apply classify_checks_failed|].
  pose proof (classifyChecks_keepsWaits rt env this s w) as K.
  now rewrite H in K.
Qed.

(** On an instance with a recorded error every call is rejected without a
    wait, with the recorded error when the locator's checks pass. *)
Lemma classify_with_error this e s w :
  error this = Some e ->
  exists v w',
    classify rt env this s w = (Rejected v, w') /\
    waitsOf (trace w') = waitsOf (trace w) /\
    (forall w1,
        classifyChecks rt env (withoutError this) s w = (Resolved tt, w1) ->
        v = errorObject (VStr e) /\ w' = w1).
Proof.
  intro He.
  pose proof (classifyChecks_with_error this e s w He) as E.
  destruct (classifyChecks rt env (withoutError this) s w)
    as [[[] | v] w'] eqn:C.
  - exists (errorObject (VStr e)), w'.
    destruct (classify_rejected_by_checks _ _ _ _ _ E) as [H1 H2].
    split; [assumption|]. split; [assumption|].
    intros w1 H. inversion H. now split.
  - exists v, w'.
    destruct (classify_rejected_by_checks _ _ _ _ _ E) as [H1 H2].
    split; [assumption|]. split; [assumption|].
    intros w1 H. discriminate.
Qed.

(** With [this.error] set, how a call ends, check by check. *)
Lemma classify_error_cases this e s w :
  error this = Some e ->
  (invalidImageUrl env s = true ->
   classify rt env this s w
   = (Rejected (errorObject (VStr "Image URL is not valid!")), w))
  /\ (invalidImageUrl env s = false -> testFile s = false ->
      classify rt env this s w = (Rejected (errorObject (VStr e)), w))
  /\ (testFile s = true ->
      forall r, url_fileURLToPath env s = Rejected r ->
      classify rt env this s w = (Rejected r, w))
  /\ (testFile s = true ->
      forall path, url_fileURLToPath env s = Resolved path ->
      classify rt env this s w
      = (match settle (fs_stat env path) with
         | Rejected r => Rejected r
         | Resolved None =>
             Rejected (errorObject (VStr "Image file:// URL does not exist!"))
         | Resolved (Some _) => Rejected (errorObject (VStr e))
         end,
         mkWorld (now w + latency (fs_stat env path)) (EvStat path :: trace w))).
Proof.
  intro He. split; [|split; [|split]].
  - intro H. apply classify_checks_failed. now apply classifyChecks_invalid.
  - intros Hv Hf. apply classify_checks_failed.
    unfold classifyChecks. fold (invalidImageUrl env s).
    rewrite Hv, Hf, He. reflexivity.
  - intros Hf r Hr. apply classify_checks_failed.
    unfold classifyChecks. rewrite Hf. cbn [negb andb].
    unfold bind, liftO. now rewrite Hr.
  - intros Hf path Hp.
    unfold classify, classifyChecks. rewrite Hf. cbn [negb andb].
    unfold bind, liftO, record, await, ret, throw. rewrite Hp, He.
    now destruct (settle (fs_stat env path)) as [[st |] | r].
Qed.



End CheckFacts.

(** *** Claims on the readiness gate *)

(** C5.  Let a call of [classify] pass its checks.  For every [N] between 1
    and 20, if the model is absent at the first [N - 1] polls and present at
    poll [N], the call settles as [inference] does when started after
    exactly [N - 1] waits of 1000 (so it succeeds with the predictions of
    [inference]); the clock has then advanced by [(N - 1) * 1000].  If the
    model is absent at all 20 polls, the call is rejected with the timeout
    reason ["Loading model"] after 19 waits. *)
Theorem readiness_gating (rt : TensorRuntime) (env : Env) (this : Instance rt)
        (imageUrl : string) (w w1 : World)
        (Hchecks : classifyChecks rt env this imageUrl w = (Resolved tt, w1)) :
  (forall N : nat,
      (1 <= N <= 20)%nat ->
      pendingFor this 1000 (N - 1) w1 ->
      readyAtPoll this 1000 (N - 1) w1 ->
      let w2 := afterWaits (N - 1) 1000 w1 in
      classify rt env this imageUrl w = inference rt env this imageUrl w2 /\
      (forall predictions w3,
          inference rt env this imageUrl w2 = (Resolved predictions, w3) ->
          classify rt env this imageUrl w = (Resolved predictions, w3)) /\
      now w2 = now w1 + 1000 * Z.of_nat (N - 1) /\
      waitsOf (trace (snd (classify rt env this imageUrl w)))
      = repeat 1000 (N - 1) ++ waitsOf (trace w))
  /\ (pendingFor this 1000 20 w1 ->
      classify rt env this imageUrl w
      = (Rejected (VStr "Loading model"), afterWaits 19 1000 w1) /\
      waitsOf (trace (snd (classify rt env this imageUrl w)))
      = repeat 1000 19 ++ waitsOf (trace w)).
Proof.
  pose proof (classifyChecks_keepsWaits rt env this imageUrl w) as Hw1.
  rewrite Hchecks in Hw1. cbn [snd] in Hw1.
  split.
  - intros N HN Hp Hr w2.
    assert (E : classify rt env this imageUrl w
                = inference rt env this imageUrl w2).
    { rewrite (classify_checks_passed _ _ _ _ _ _ Hchecks).
      apply retry_ready_at; [lia|assumption|assumption]. }
    repeat split.
    + exact E.
    + intros predictions w3 H. now rewrite E.
    + apply afterWaits_now.
    + rewrite E, inference_keepsWaits. unfold w2.
      now rewrite afterWaits_waits, Hw1.
  - intro Hp.
    assert (E : classify rt env this imageUrl w
                = (Rejected (VStr "Loading model"), afterWaits 19 1000 w1)).
    { rewrite (classify_checks_passed _ _ _ _ _ _ Hchecks).
      now rewrite retry_timeout by (assumption || lia). }
    split; [exact E|].
    rewrite E. cbn [snd]. now rewrite afterWaits_waits, Hw1.
Qed.

(** C5 on a served model that loads in 2505 time units and a call made at
    time 0: ready at the fourth poll, three waits. *)
Lemma readiness_gating_witness :
  classify Sample.runtime Sample.environment Sample.served
           "https://images.example/cat.png" Sample.start
  = (Resolved [mkCP (Some "b") (Num (9 # 10)); mkCP (Some "c") (Num (5 # 10));
               mkCP (Some "a") (Num (1 # 10))],
     mkWorld 3036 [EvPredict true; EvDecodePNG;
                   EvFetch "https://images.example/cat.png";
                   EvWait 1000; EvWait 1000; EvWait 1000])
  /\ waitsOf (trace (snd (classify Sample.runtime Sample.environment Sample.served
                                   "https://images.example/cat.png" Sample.start)))
     = [1000; 1000; 1000].
Proof.
  destruct (readiness_gating Sample.runtime Sample.environment Sample.served
              "https://images.example/cat.png" Sample.start Sample.start
              eq_refl) as [H _].
  destruct (H 4%nat) as (E & _ & _ & Hw).
  - lia.
  - intros j Hj. destruct j as [|[|[|j]]]; [reflexivity|reflexivity|reflexivity|].
    simpl in Hj. lia.
  - vm_compute. discriminate.
  - split; [rewrite E; reflexivity | rewrite Hw; reflexivity].
Defined.




(** C9.  The checks of [classify] come before the retry loop, whatever the
    state of the model: a locator that fails validation is rejected in the
    unchanged world (no input or output, no wait); a failed check is the
    settlement of the call, with no wait; a local file that [fs.stat] does
    not find is rejected right after that call; and on an instance that
    carries a recorded error every call is rejected without a wait, with the
    recorded error whenever the checks on the locator pass. *)
Theorem checks_precede_retry (rt : TensorRuntime) (env : Env)
        (this : Instance rt) (imageUrl : string) (w : World) :
  (invalidImageUrl env imageUrl = true ->
   classify rt env this imageUrl w
   = (Rejected (errorObject (VStr "Image URL is not valid!")), w))
  /\ (forall v w',
         classifyChecks rt env this imageUrl w = (Rejected v, w') ->
         classify rt env this imageUrl w = (Rejected v, w') /\
         waitsOf (trace w') = waitsOf (trace w))
  /\ (forall p,
         testFile imageUrl = true ->
         url_fileURLToPath env imageUrl = Resolved p ->
         settle (fs_stat env p) = Resolved None ->
         classify rt env this imageUrl w
         = (Rejected (errorObject (VStr "Image file:// URL does not exist!")),
            mkWorld (now w + latency (fs_stat env p)) (EvStat p :: trace w)))
  /\ (forall e,
         error this = Some e ->
         exists v w',
           classify rt env this imageUrl w = (Rejected v, w') /\
           waitsOf (trace w') = waitsOf (trace w) /\
           (forall w1,
               classifyChecks rt env (withoutError this) imageUrl w
               = (Resolved tt, w1) ->
               v = errorObject (VStr e) /\ w' = w1)).
Proof.
  split; [|split; [|split]].
  - intro H. apply classify_checks_failed. now apply classifyChecks_invalid.
  - apply classify_rejected_by_checks.
  - intros p Hf Hp Hs. apply classify_checks_failed.
    unfold classifyChecks. rewrite Hf. cbn [negb andb].
    unfold bind, liftO, record, await. rewrite Hp, Hs. reflexivity.
  - intros e. apply classify_with_error.
Qed.

(** *** Claims on the load state *)

(** C7, as the code has it.  When the constructor is given an argument
    whose model locator is missing or empty, it returns (the load settles
    without a rejection) and leaves the instance with the recorded error
    ["Missing model URL!"] and no model, at every later time.  Every later
    call of [classify] is rejected without any wait.  The reason is the
    recorded error whenever the image locator passes the checks that
    precede the test of [this.error], and otherwise the error of the check
    that failed: the validation error for an invalid locator, the error
    thrown by [url.fileURLToPath] or by [fs.stat], or the existence error
    when [fs.stat] finds nothing. *)
Theorem missing_model_url (rt : TensorRuntime) (env : Env)
        (p : LoadParams) (w0 : World)
        (Hmissing : modelUrl p = None \/ modelUrl p = Some ""%string) :
  let this := newInstance rt env (Some p) w0 in
  let stored := errorObject (VStr "Missing model URL!") in
  fst (loadModel rt env (Some p) w0)
  = Resolved (mkFields rt (Some "Missing model URL!"%string) None)
  /\ this = mkInstance rt (Some "Missing model URL!"%string) None (now w0)
  /\ (forall t, thisModel this t = None)
  /\ (forall params w,
         exists v w',
           classifyCall rt env this params w = (Rejected v, w') /\
           waitsOf (trace w') = waitsOf (trace w))
  /\ (forall imageUrl w,
         (invalidImageUrl env imageUrl = true ->
          classify rt env this imageUrl w
          = (Rejected (errorObject (VStr "Image URL is not valid!")), w))
         /\ (invalidImageUrl env imageUrl = false -> testFile imageUrl = false ->
             classify rt env this imageUrl w = (Rejected stored, w))
         /\ (testFile imageUrl = true ->
             forall r, url_fileURLToPath env imageUrl = Rejected r ->
             classify rt env this imageUrl w = (Rejected r, w))
         /\ (testFile imageUrl = true ->
             forall path, url_fileURLToPath env imageUrl = Resolved path ->
             classify rt env this imageUrl w
             = (match settle (fs_stat env path) with
                | Rejected r => Rejected r
                | Resolved None =>
                    Rejected (errorObject
                                (VStr "Image file:// URL does not exist!"))
                | Resolved (Some _) => Rejected stored
                end,
                mkWorld (now w + latency (fs_stat env path))
                        (EvStat path :: trace w)))).
Proof.
  intros this stored. unfold this, stored.
  rewrite (newInstance_missing rt env _ w0 Hmissing).
  rewrite (loadModel_missing rt env _ w0 Hmissing).
  split; [reflexivity|]. split; [reflexivity|]. split; [|split].
  - intro t. unfold thisModel. cbn [model readyAt]. now destruct (now w0 <=? t).
  - intros params w. unfold classifyCall.
    destruct params as [q|]; [|eexists; eexists; split; reflexivity].
    destruct (imageUrl q) as [s|]; [|eexists; eexists; split; reflexivity].
    destruct (classify_with_error rt env
                (mkInstance rt (Some "Missing model URL!"%string) None (now w0))
                "Missing model URL!" s w eq_refl) as (v & w' & E & Hw & _).
    now exists v, w'.
  - intros imageUrl w. now apply classify_error_cases.
Qed.

(** C7 on an argument without a model URL and a fetchable image: rejected
    at once with the recorded error. *)
Lemma missing_model_url_witness :
  classify Sample.runtime Sample.environment Sample.unconfigured
           "https://images.example/cat.png" Sample.start
  = (Rejected (errorObject (VStr "Missing model URL!")), Sample.start).
Proof.
  destruct (missing_model_url Sample.runtime Sample.environment
              (mkLoadParams None) Sample.start (or_introl eq_refl))
    as (_ & _ & _ & _ & H).
  destruct (H "https://images.example/cat.png"%string Sample.start)
    as (_ & E & _ & _).
  apply E; reflexivity.
Defined.

(** C7, as stated, fails.  On the instance built with an argument that has
    no model URL, a call with an invalid image locator is rejected with the
    validation error, and a call naming a local file that does not exist
    with the error of [fs.stat]; neither is the recorded error.  And when
    the constructor is given no argument at all, no error is recorded: the
    call polls 20 times and is rejected with ["Loading model"]. *)
Lemma missing_model_url_counterexample :
  error Sample.unconfigured = Some "Missing model URL!"%string
  /\ classify Sample.runtime Sample.environment Sample.unconfigured
              "not an image" Sample.start
     = (Rejected (errorObject (VStr "Image URL is not valid!")), Sample.start)
  /\ classify Sample.runtime Sample.environment Sample.unconfigured
              "file:///images/none.png" Sample.start
     = (Rejected (VError "Error" "ENOENT: no such file or directory"),
        mkWorld 2 [EvStat "/images/none.png"])
  /\ errorObject (VStr "Image URL is not valid!")
     <> errorObject (VStr "Missing model URL!")
  /\ VError "Error" "ENOENT: no such file or directory"
     <> errorObject (VStr "Missing model URL!")
  /\ error Sample.bare = None
  /\ classify Sample.runtime Sample.environment Sample.bare
              "https://images.example/cat.png" Sample.start
     = (Rejected (VStr "Loading model"), afterWaits 19 1000 Sample.start).
Proof. repeat split; discriminate. Qed.

(** C1 on the code.  [loadModel] stores no error for a present locator,
    however the load ends.  On the instance whose metadata cannot be
    fetched, [this.error] is unset and [this.model] stays absent, so a call
    of [classify] polls 20 times, waits 19 times 1000 and is rejected with
    ["Loading model"], not with the load error. *)
Theorem load_failure_is_polled :
  (forall rt env u w f w',
      u <> ""%string ->
      loadModel rt env (Some (mkLoadParams (Some u))) w = (Resolved f, w') ->
      fError rt f = None)
  /\ settle (fetch Sample.environment "https://nowhere.example/tm/metadata.json")
     = Rejected (VError "FetchError" "request failed")
  /\ error Sample.unreachable = None
  /\ (forall t, thisModel Sample.unreachable t = None)
  /\ classify Sample.runtime Sample.environment Sample.unreachable
              "https://images.example/cat.png" Sample.start
     = (Rejected (VStr "Loading model"), afterWaits 19 1000 Sample.start)
  /\ waitsOf (trace (afterWaits 19 1000 Sample.start)) = repeat 1000 19.
Proof.
  split; [apply loadModel_error_unset|].
  split; [reflexivity|]. split; [reflexivity|]. split.
  - intro t. unfold thisModel.
    destruct (readyAt Sample.unreachable <=? t); reflexivity.
  - split; reflexivity.
Qed.

(** *** Claims on the image source and the decoder *)

(** C3 on the code.  A content type that matches neither pattern leaves the
    bitmap absent without any failure, and [inference] goes on to [predict]
    with the absent bitmap.  On a GIF data URL no decoder is called and
    [predict] is entered without a bitmap; the rejection is the one the
    tensor runtime raises on absent pixels. *)
Theorem unknown_content_type_reaches_predict :
  (forall env ct buf w,
      testPng ct = false -> testJpeg ct = false ->
      decodeBitmap env ct buf w = (Resolved None, w))
  /\ (forall rt env this s ct buf w w1,
         resolveImage env s w = (Resolved (ct, buf), w1) ->
         testPng ct = false -> testJpeg ct = false ->
         inference rt env this s w
         = tryCatch (predict rt None (thisModel this (now w1)))
                    (fun e => throw (errorObject e)) w1)
  /\ inference Sample.runtime Sample.environment Sample.served
               "data:image/gif;base64,R0lGODlh" (mkWorld 5000 [])
     = (Rejected (errorObject
                    (VError "Error"
                       "pixels passed to tf.browser.fromPixels() can not be null")),
        mkWorld 5000 [EvPredict false]).
Proof.
  assert (D : forall env ct buf w,
             testPng ct = false -> testJpeg ct = false ->
             decodeBitmap env ct buf w = (Resolved None, w)).
  { intros env ct buf w Hp Hj. unfold decodeBitmap. now rewrite Hp, Hj. }
  split; [exact D|]. split; [|reflexivity].
  intros rt env this s ct buf w w1 Hr Hp Hj.
  unfold inference, tryCatch. unfold bind at 1. rewrite Hr.
  unfold bind. now rewrite (D env ct buf w1 Hp Hj).
Qed.

(** C4 on the code.  The pattern for local paths is unanchored, so a string
    can start with [data:image/] and contain [file:///]: the checks of
    [classify] treat it as a local path (here [url.fileURLToPath] refuses
    it and the call is rejected with that error), while [inference] would
    read it as an embedded payload.  Strings matching none of the three
    tests are rejected before any input or output. *)
Theorem locator_patterns_overlap :
  startsWith "data:image/png;base64,file:///x" "data:image/" = true
  /\ testFile "data:image/png;base64,file:///x" = true
  /\ classify Sample.runtime Sample.environment Sample.served
              "data:image/png;base64,file:///x" (mkWorld 5000 [])
     = (Rejected (VError "TypeError" "The URL must be of scheme file"),
        mkWorld 5000 [])
  /\ resolveImage Sample.environment "data:image/png;base64,file:///x"
                  (mkWorld 5000 [])
     = (Resolved (Some "image/png"%string,
                  [Byte.x89; Byte.x50; Byte.x4e; Byte.x47]),
        mkWorld 5000 [])
  /\ (forall rt env (this : Instance rt) s w r,
         testFile s = true -> url_fileURLToPath env s = Rejected r ->
         classify rt env this s w = (Rejected r, w))
  /\ (forall rt env (this : Instance rt) s w,
         invalidImageUrl env s = true ->
         classify rt env this s w
         = (Rejected (errorObject (VStr "Image URL is not valid!")), w)).
Proof.
  repeat split.
  - intros rt env this s w r Hf Hr. apply classify_checks_failed.
    unfold classifyChecks. rewrite Hf. cbn [negb andb].
    unfold bind, liftO. now rewrite Hr.
  - intros rt env this s w H. apply classify_checks_failed.
    now apply classifyChecks_invalid.
Qed.

(** *** Claims on the preprocessing *)

Lemma normalize_range (x : Q) :
  (0 <= x <= 255)%Q -> (-1 <= normalize x <= 1)%Q.
Proof.
  intros [H0 H1]. unfold normalize. split.
  - apply Qle_shift_div_l; [reflexivity|]. lra.
  - apply Qle_shift_div_r; [reflexivity|]. lra.
Qed.

Lemma byteToQ_range (b : Byte.byte) : (0 <= Sample.byteToQ b <= 255)%Q.
Proof.
  unfold Sample.byteToQ. pose proof (Byte.to_N_bounded b) as H. split.
  - change 0%Q with (inject_Z 0). rewrite <- Zle_Qle. lia.
  - change 255%Q with (inject_Z 255). rewrite <- Zle_Qle. lia.
Qed.

Lemma rgbOfRgba_range (d : Buffer) :
  Forall (fun x => 0 <= x <= 255)%Q (Sample.rgbOfRgba d).
Proof.
  assert (H : forall n d, (List.length d <= n)%nat ->
                          Forall (fun x => 0 <= x <= 255)%Q (Sample.rgbOfRgba d)).
  { induction n as [|n IH]; intros [|r [|g [|b [|a rest]]]] Hn;
      simpl in *; try constructor; try lia.
    - apply byteToQ_range.
    - constructor; [apply byteToQ_range|].
      constructor; [apply byteToQ_range|]. apply IH. lia. }
  now apply (H (List.length d)).
Qed.

Lemma gather_samples vals idxs out :
  Sample.gather vals idxs = Some out -> Forall (fun y => In y vals) out.
Proof.
  revert out. induction idxs as [|i rest IH]; intros out; simpl.
  - intro H. inversion H. constructor.
  - destruct (nth_error vals i) as [v|] eqn:E; [|discriminate].
    destruct (Sample.gather vals rest) as [vs|]; [|discriminate].
    intro H. inversion H. constructor; [|now apply IH].
    eapply nth_error_In. eassumption.
Qed.

(** The sample runtime honours the contract. *)
Lemma sample_runtime_laws : TensorRuntimeLaws Sample.runtime.
Proof.
  constructor; cbn.
  - intros bmp t H. inversion H. apply rgbOfRgba_range.
  - intros t h w t'. unfold Sample.resizeNearestNeighbor.
    destruct (Sample.dShape t) as [|h0 [|w0 [|c0 [|]]]]; try discriminate.
    destruct (Sample.gather _ _) as [vs|] eqn:G; [|discriminate].
    intro H. inversion H. cbn. split; [reflexivity|].
    eapply gather_samples. eassumption.
  - reflexivity.
  - intros t s q t' Hs. unfold Sample.byScalar. rewrite Hs.
    intro H. inversion H. now split.
  - intros t s q t' Hs. unfold Sample.byScalar. rewrite Hs.
    intro H. inversion H. now split.
  - intros t s t'. unfold Sample.reshapeTo.
    destruct (_ =? _)%nat; [|discriminate]. intro H. inversion H. now split.
Qed.

(** C8.  On a runtime that honours the contract and a model whose declared
    input shape is [(h, w, c)], [predict] reaches [model.predict] exactly
    when pixel extraction, nearest-neighbour resizing to [h] x [w],
    subtraction of 127.5, division by 127.5 and reshaping to
    [[1, h, w, c]] all settle, in that order; the tensor handed to
    [model.predict] then has shape [[1, h, w, c]], its entries are
    [(x - 127.5) / 127.5] for the entries [x] of the resized image, which
    lie in [[0, 255]], and so they lie in [[-1, 1]]. *)
Theorem preprocess_normalizes (rt : TensorRuntime) (laws : TensorRuntimeLaws rt)
        (bmp : Bitmap) (m : Model rt) (h w c : nat)
        (Hshape : inputShape rt (net m) = (h, w, c)) :
  (forall batched,
      preprocess rt (Some bmp) (Some m) = Resolved batched <->
      exists pixels resized centred normalized,
        browser_fromPixels rt (Some bmp) = Resolved pixels /\
        image_resizeNearestNeighbor rt (toFloat rt pixels) (h, w) = Resolved resized /\
        sub rt resized (scalar rt (255 # 2)) = Resolved centred /\
        div rt centred (scalar rt (255 # 2)) = Resolved normalized /\
        reshape rt normalized [1%nat; h; w; c] = Resolved batched)
  /\ (forall batched,
         preprocess rt (Some bmp) (Some m) = Resolved batched ->
         shapeOf rt batched = [1%nat; h; w; c] /\
         (exists pixels resized,
             browser_fromPixels rt (Some bmp) = Resolved pixels /\
             image_resizeNearestNeighbor rt (toFloat rt pixels) (h, w)
             = Resolved resized /\
             shapeOf rt resized
             = [h; w; nth 2 (shapeOf rt (toFloat rt pixels)) 0%nat] /\
             Forall (fun x => 0 <= x <= 255)%Q (valuesOf rt resized) /\
             valuesOf rt batched = map normalize (valuesOf rt resized)) /\
         Forall (fun y => -1 <= y <= 1)%Q (valuesOf rt batched))
  /\ (forall batched w0,
         preprocess rt (Some bmp) (Some m) = Resolved batched ->
         predict rt (Some bmp) (Some m) w0
         = bind (liftO (model_predict rt (net m) batched))
                (fun logits => getTopKClasses_async rt logits (classes m))
                (mkWorld (now w0) (EvPredict true :: trace w0))).
Proof.
  assert (Hiff : forall batched,
      preprocess rt (Some bmp) (Some m) = Resolved batched <->
      exists pixels resized centred normalized,
        browser_fromPixels rt (Some bmp) = Resolved pixels /\
        image_resizeNearestNeighbor rt (toFloat rt pixels) (h, w) = Resolved resized /\
        sub rt resized (scalar rt (255 # 2)) = Resolved centred /\
        div rt centred (scalar rt (255 # 2)) = Resolved normalized /\
        reshape rt normalized [1%nat; h; w; c] = Resolved batched).
  { intro batched. unfold preprocess, obind. rewrite Hshape. split.
    - destruct (browser_fromPixels rt (Some bmp)) as [pixels|]; [|discriminate].
      destruct (image_resizeNearestNeighbor rt _ _) as [resized|] eqn:E1; [|discriminate].
      destruct (sub rt _ _) as [centred|] eqn:E2; [|discriminate].
      destruct (div rt _ _) as [normalized|] eqn:E3; [|discriminate].
      intro H. exists pixels, resized, centred, normalized. auto.
    - intros (pixels & resized & centred & normalized & H1 & H2 & H3 & H4 & H5).
      now rewrite H1, H2, H3, H4. }
  split; [exact Hiff|]. split.
  - intros batched H. apply Hiff in H.
    destruct H as (pixels & resized & centred & normalized & H1 & H2 & H3 & H4 & H5).
    destruct (resize_samples rt laws _ _ _ _ H2) as [S2 V2].
    destruct (sub_scalar rt laws _ _ _ _ (scalar_value rt laws _) H3) as [_ V3].
    destruct (div_scalar rt laws _ _ _ _ (scalar_value rt laws _) H4) as [_ V4].
    destruct (reshape_keeps rt laws _ _ _ H5) as [S5 V5].
    assert (R : Forall (fun x => 0 <= x <= 255)%Q (valuesOf rt resized)).
    { pose proof (fromPixels_bytes rt laws _ _ H1) as B.
      rewrite Forall_forall in *. intros x Hx. apply B. now apply V2. }
    assert (N : valuesOf rt batched = map normalize (valuesOf rt resized)).
    { rewrite V5, V4, V3, map_map. reflexivity. }
    split; [exact S5|]. split.
    + exists pixels, resized. auto.
    + rewrite N. rewrite Forall_forall in *. intros y Hy.
      apply in_map_iff in Hy. destruct Hy as (x & <- & Hx).
      apply normalize_range. now apply R.
  - intros batched w0 H. unfold predict.
    unfold bind at 1. unfold record. unfold bind at 1. unfold liftO at 1.
    now rewrite H.
Qed.

(** C8 on the sample runtime, a one-pixel bitmap and a model with input
    shape [(1, 1, 3)]. *)
Lemma preprocess_normalizes_witness :
  exists batched,
    preprocess Sample.runtime (Some Sample.pixel)
               (Some (mkModel Sample.runtime Sample.net3 (Some ["a"; "b"; "c"]%string)))
    = Resolved batched
    /\ shapeOf Sample.runtime batched = [1; 1; 1; 3]%nat
    /\ valuesOf Sample.runtime batched
       = [normalize (inject_Z 0); normalize (inject_Z 128); normalize (inject_Z 255)]
    /\ Forall (fun y => -1 <= y <= 1)%Q (valuesOf Sample.runtime batched).
Proof.
  eexists. split; [reflexivity|].
  destruct (preprocess_normalizes Sample.runtime sample_runtime_laws Sample.pixel
              (mkModel Sample.runtime Sample.net3 (Some ["a"; "b"; "c"]%string))
              1%nat 1%nat 3%nat eq_refl) as (_ & H & _).
  destruct (H _ eq_refl) as (S & _ & F).
  split; [exact S|]. split; [reflexivity | exact F].
Defined.

(** *** Further properties of the ranker *)

Lemma pushValuesFrom_indices i values :
  map index (pushValuesFrom i values) = seq i (List.length values).
Proof.
  revert i. induction values as [|v rest IH]; intro i; simpl; [reflexivity|].
  now rewrite IH.
Qed.

Lemma pushValuesFrom_In v values i :
  In v values -> exists j, In (mkVI v j) (pushValuesFrom i values).
Proof.
  revert i. induction values as [|x rest IH]; intros i; simpl; [tauto|].
  intros [-> | H].
  - exists i. now left.
  - destruct (IH (S i) H) as [j Hj]. exists j. now right.
Qed.

Lemma sorted_pair_in_range values p :
  In p (arraySort compareFn (valuesAndIndices values)) ->
  nth_error values (index p) = Some (value p) /\
  (index p < List.length values)%nat.
Proof.
  intro Hp. apply (Permutation_in _ (arraySort_perm compareFn _)) in Hp.
  apply pushValuesFrom_nth in Hp. destruct Hp as [_ Hp].
  rewrite Nat.sub_0_r in Hp. split; [assumption|].
  apply nth_error_Some. congruence.
Qed.

Lemma StronglySorted_firstn {A} (R : A -> A -> Prop) n l :
  StronglySorted R l -> StronglySorted R (firstn n l).
Proof.
  revert l. induction n as [|n IH]; intros l H; [constructor|].
  destruct l as [|a l]; [constructor|].
  inversion H as [|? ? Hs Hf]; subst. simpl. constructor; [now apply IH|].
  rewrite Forall_forall in *. intros x Hx. apply Hf.
  apply (In_nth_error (firstn n l)) in Hx. destruct Hx as [j Hj].
  rewrite nth_error_firstn in Hj. destruct (j <? n)%nat; [|discriminate].
  eapply nth_error_In. eassumption.
Qed.

Lemma StronglySorted_map {A B} (R : A -> A -> Prop) (S : B -> B -> Prop)
      (f : A -> B) l :
  (forall a b, R a b -> S (f a) (f b)) ->
  StronglySorted R l -> StronglySorted S (map f l).
Proof.
  intros HRS H. induction H as [|a l Hs IH Hf]; simpl; constructor;
    [assumption|].
  rewrite Forall_forall in *. intros y Hy.
  apply in_map_iff in Hy. destruct Hy as (x & <- & Hx). auto.
Qed.

Lemma NoDup_firstn {A} n (l : list A) : NoDup l -> NoDup (firstn n l).
Proof.
  revert l. induction n as [|n IH]; intros l H; [constructor|].
  destruct l as [|a l]; [constructor|].
  inversion H as [|? ? Hn Hd]; subst. simpl. constructor; [|now apply IH].
  intro Hin. apply Hn.
  apply (In_nth_error (firstn n l)) in Hin. destruct Hin as [j Hj].
  rewrite nth_error_firstn in Hj. destruct (j <? n)%nat; [|discriminate].
  eapply nth_error_In. eassumption.
Qed.

(** X1.  When there are at least as many labels as scores (the case the
    metadata is meant to guarantee), nothing is truncated and nothing is
    unlabelled: the output has one entry per score, every entry carries a
    label, and the output is a rearrangement of the label/score pairs taken
    position by position. *)
Theorem rank_all_labelled (values : list Score) (classes : list string)
        (Hlen : (List.length values <= List.length classes)%nat) :
  List.length (getTopKClasses values classes) = List.length values /\
  Forall (fun e => exists c, class e = Some c) (getTopKClasses values classes) /\
  Permutation (getTopKClasses values classes)
              (map (emit classes) (valuesAndIndices values)).
Proof.
  rewrite getTopKClasses_emit.
  replace (Nat.min (List.length classes) (List.length values))
    with (List.length (arraySort compareFn (valuesAndIndices values))).
  2:{ unfold valuesAndIndices.
      rewrite arraySort_length, pushValuesFrom_length. lia. }
  rewrite firstn_all. split; [|split].
  - rewrite length_map. unfold valuesAndIndices.
    now rewrite arraySort_length, pushValuesFrom_length.
  - rewrite Forall_forall. intros e He.
    apply in_map_iff in He. destruct He as (p & <- & Hp).
    apply sorted_pair_in_range in Hp. destruct Hp as [_ Hp]. simpl.
    destruct (nth_error classes (index p)) as [c|] eqn:E; [eauto|].
    apply nth_error_None in E. lia.
  - apply Permutation_map, arraySort_perm.
Qed.

Lemma rank_all_labelled_witness :
  Permutation (getTopKClasses [Num (1 # 10); Num (9 # 10)]
                              ["cat"; "dog"; "fish"]%string)
              [mkCP (Some "cat"%string) (Num (1 # 10));
               mkCP (Some "dog"%string) (Num (9 # 10))].
Proof.
  refine (proj2 (proj2 (rank_all_labelled [Num (1 # 10); Num (9 # 10)]
                          ["cat"; "dog"; "fish"]%string _))).
  simpl. lia.
Defined.

(** X2.  For a score vector without NaN, the first entry of a non-empty
    output carries a score that no score of the input exceeds. *)
Theorem rank_first_is_best (values : list Score) (classes : list string)
        (e : ClassAndProb) (rest : list ClassAndProb)
        (Hnum : Forall notNaN values)
        (Hout : getTopKClasses values classes = e :: rest) :
  forall v, In v values -> scoreLe v (score e).
Proof.
  intros v Hv. rewrite getTopKClasses_emit in Hout.
  pose proof (arraySort_sorted 0 values Hnum) as Hs.
  fold (valuesAndIndices values) in Hs.
  destruct (pushValuesFrom_In v values 0 Hv) as [j Hj].
  apply (Permutation_in _ (Permutation_sym (arraySort_perm compareFn _))) in Hj.
  fold (valuesAndIndices values) in Hj.
  destruct (arraySort compareFn (valuesAndIndices values)) as [|p sorted];
    [contradiction|].
  destruct (Nat.min (List.length classes) (List.length values)) as [|k];
    [discriminate|].
  simpl in Hout. inversion Hout; subst. simpl.
  destruct Hj as [-> | Hj].
  - simpl. rewrite Forall_forall in Hnum. specialize (Hnum v Hv).
    right. destruct v; simpl in *; try tauto. apply Qeq_refl.
  - inversion Hs as [|? ? _ Hf]; subst. rewrite Forall_forall in Hf.
    apply (rankedBefore_le p (mkVI v j)). now apply Hf.
Qed.

Lemma rank_first_is_best_witness :
  getTopKClasses [Num (1 # 10); Num (9 # 10); Num (5 # 10)]
                 ["cat"; "dog"; "fish"]%string
  = [mkCP (Some "dog"%string) (Num (9 # 10));
     mkCP (Some "fish"%string) (Num (5 # 10));
     mkCP (Some "cat"%string) (Num (1 # 10))]
  /\ scoreLe (Num (5 # 10)) (Num (9 # 10)).
Proof.
  split; [reflexivity|].
  refine (rank_first_is_best [Num (1 # 10); Num (9 # 10); Num (5 # 10)]
            ["cat"; "dog"; "fish"]%string
            (mkCP (Some "dog"%string) (Num (9 # 10)))
            [mkCP (Some "fish"%string) (Num (5 # 10));
             mkCP (Some "cat"%string) (Num (1 # 10))]
            _ eq_refl (Num (5 # 10)) _).
  - repeat constructor.
  - simpl. tauto.
Defined.

(** X3.  For a score vector without NaN, the scores of the output never
    increase from one position to any later one. *)
Theorem rank_scores_descend (values : list Score) (classes : list string)
        (Hnum : Forall notNaN values) :
  StronglySorted (fun a b => scoreLe (score b) (score a))
                 (getTopKClasses values classes).
Proof.
  rewrite getTopKClasses_emit.
  apply (StronglySorted_map rankedBefore).
  - intros a b H. simpl. now apply rankedBefore_le.
  - apply StronglySorted_firstn. now apply arraySort_sorted.
Qed.

Lemma rank_scores_descend_witness :
  StronglySorted (fun a b => scoreLe (score b) (score a))
                 [mkCP (Some "dog"%string) (Num (9 # 10));
                  mkCP (Some "fish"%string) (Num (5 # 10));
                  mkCP (Some "cat"%string) (Num (1 # 10))].
Proof.
  refine (rank_scores_descend [Num (1 # 10); Num (9 # 10); Num (5 # 10)]
            ["cat"; "dog"; "fish"]%string _).
  repeat constructor.
Defined.

(** X4.  No score is reported twice and none is invented: the output is
    read off a duplicate-free list of positions of the score vector, each
    entry pairing the score at its position with the label at the same
    position (absent beyond the label list). *)
Theorem rank_positions_distinct (values : list Score) (classes : list string) :
  exists positions : list nat,
    NoDup positions /\
    Forall (fun i => (i < List.length values)%nat) positions /\
    getTopKClasses values classes
    = map (fun i => mkCP (nth_error classes i) (nth i values NaN)) positions.
Proof.
  set (k := Nat.min (List.length classes) (List.length values)).
  set (sorted := arraySort compareFn (valuesAndIndices values)).
  assert (Hin : forall p, In p (firstn k sorted) -> In p sorted).
  { intros p Hp. rewrite <- (firstn_skipn k sorted). apply in_or_app. now left. }
  exists (map index (firstn k sorted)). split; [|split].
  - rewrite <- firstn_map. apply NoDup_firstn.
    apply (Permutation_NoDup (l := map index (valuesAndIndices values))).
    + apply Permutation_map, Permutation_sym, arraySort_perm.
    + unfold valuesAndIndices. rewrite pushValuesFrom_indices. apply seq_NoDup.
  - rewrite Forall_forall. intros i Hi.
    apply in_map_iff in Hi. destruct Hi as (p & <- & Hp).
    now apply sorted_pair_in_range, Hin.
  - rewrite getTopKClasses_emit, map_map. apply map_ext_in.
    intros p Hp. unfold emit. f_equal.
    destruct (sorted_pair_in_range values p (Hin p Hp)) as [Hn _].
    symmetry. now apply nth_error_nth.
Qed.

(** *** Further properties of the retry loop and of [classify] *)

Lemma repeat_shift {A} (a : A) n l : repeat a n ++ a :: l = a :: repeat a n ++ l.
Proof. induction n as [|n IH]; simpl; [reflexivity|]. now rewrite IH. Qed.

Lemma retryOperation_step {R} (op : M (M R)) (delay : Z) (t : nat) (w : World) :
  retryOperation op delay (S (S t)) w
  = match op w with
    | (Resolved cb, w1) => cb w1
    | (Rejected _, w1) =>
        retryOperation op delay (S t)
                       (mkWorld (now w1 + delay) (EvWait delay :: trace w1))
    end.
Proof. reflexivity. Qed.

(** Whatever the operation, as long as neither it nor the callbacks it
    hands out wait themselves, the loop waits at most [times - 1] times and
    always for [delay]. *)
Lemma retryOperation_waits {R} (op : M (M R)) (delay : Z) :
  keepsWaits op ->
  (forall w cb w1, op w = (Resolved cb, w1) -> keepsWaits cb) ->
  forall times w,
  exists k, (k <= times - 1)%nat /\
            waitsOf (trace (snd (retryOperation op delay times w)))
            = repeat delay k ++ waitsOf (trace w).
Proof.
  intros Hop Hcb.
  assert (Once : forall w (tail : Value -> World -> Outcome R * World),
             (forall r w1, tail r w1 = (Rejected (getField "message" r), w1)) ->
             waitsOf (trace (snd (match op w with
                                  | (Resolved cb, w1) => cb w1
                                  | (Rejected r, w1) => tail r w1
                                  end)))
             = waitsOf (trace w)).
  { intros w tail Ht. pose proof (Hop w) as H.
    destruct (op w) as [[cb | r] w1] eqn:E; simpl in H.
    - now rewrite (Hcb _ _ _ E).
    - now rewrite Ht. }
  induction times as [|times IH]; intro w.
  - exists 0%nat. split; [lia|]. simpl. now apply Once.
  - destruct times as [|t].
    + exists 0%nat. split; [lia|]. simpl. now apply Once.
    + rewrite retryOperation_step. pose proof (Hop w) as H.
      destruct (op w) as [[cb | r] w1] eqn:E; simpl in H.
      * exists 0%nat. split; [lia|]. now rewrite (Hcb _ _ _ E).
      * destruct (IH (mkWorld (now w1 + delay) (EvWait delay :: trace w1)))
          as (k & Hk & Hw).
        exists (S k). split; [lia|]. rewrite Hw. cbn [trace waitsOf].
        rewrite H. apply repeat_shift.
Qed.

(** X5.  The retry loop is bounded whatever it retries: if neither the
    operation nor the callbacks it resolves with wait themselves, a run with
    budget [times] waits at most [times - 1] times, each time for [delay]
    (a budget of 0 behaves like a budget of 1: one attempt, no wait). *)
Theorem retry_waits_bounded (R : Type) (op : M (M R)) (delay : Z)
        (Hop : keepsWaits op)
        (Hcb : forall w cb w1, op w = (Resolved cb, w1) -> keepsWaits cb) :
  forall times w,
  exists k, (k <= times - 1)%nat /\
            waitsOf (trace (snd (retryOperation op delay times w)))
            = repeat delay k ++ waitsOf (trace w).
Proof.
  assert (Once : forall w (tail : Value -> World -> Outcome R * World),
             (forall r w1, tail r w1 = (Rejected (getField "message" r), w1)) ->
             waitsOf (trace (snd (match op w with
                                  | (Resolved cb, w1) => cb w1
                                  | (Rejected r, w1) => tail r w1
                                  end)))
             = waitsOf (trace w)).
  { intros w tail Ht. pose proof (Hop w) as H.
    destruct (op w) as [[cb | r] w1] eqn:E; simpl in H.
    - now rewrite (Hcb _ _ _ E).
    - now rewrite Ht. }
  induction times as [|times IH]; intro w.
  - exists 0%nat. split; [lia|]. simpl. now apply Once.
  - destruct times as [|t].
    + exists 0%nat. split; [lia|]. simpl. now apply Once.
    + rewrite retryOperation_step. pose proof (Hop w) as H.
      destruct (op w) as [[cb | r] w1] eqn:E; simpl in H.
      * exists 0%nat. split; [lia|]. now rewrite (Hcb _ _ _ E).
      * destruct (IH (mkWorld (now w1 + delay) (EvWait delay :: trace w1)))
          as (k & Hk & Hw).
        exists (S k). split; [lia|]. rewrite Hw. cbn [trace waitsOf].
        rewrite H. apply repeat_shift.
Qed.

Lemma retry_waits_bounded_witness :
  exists k, (k <= 2)%nat /\
    waitsOf (trace (snd (retryOperation
                           (fun w => (@Rejected (M unit) (VStr "busy"), w))
                           250 3 Sample.start)))
    = repeat 250 k ++ [].
Proof.
  refine (retry_waits_bounded unit (fun w => (Rejected (VStr "busy"), w)) 250
            _ _ 3%nat Sample.start).
  - intro w. reflexivity.
  - intros w cb w1 H. discriminate H.
Defined.



Section GateFacts.

Variable rt : TensorRuntime.
Variable env : Env.

Lemma checkModel_keepsWaits {R} (this : Instance rt) (cb : M R) :
  keepsWaits (checkModel this cb).
Proof.
  intro w. unfold checkModel. now destruct (thisModel this (now w)).
Qed.

Lemma checkModel_callback {R} (this : Instance rt) (cb cb' : M R) w w1 :
  checkModel this cb w = (Resolved cb', w1) -> cb' = cb.
Proof.
  unfold checkModel. destruct (thisModel this (now w)); intro H; now inversion H.
Qed.

Lemma thisModel_some (this : Instance rt) t m :
  thisModel this t = Some m -> model this = Some m.
Proof. unfold thisModel. now destruct (readyAt this <=? t). Qed.

(** A resolved retry loop over [checkModel] resolved through its callback,
    run at a moment the model was present. *)
Lemma retry_resolved_inv {R} (this : Instance rt) (cb : M R) delay :
  forall times w x w',
    retryOperation (checkModel this cb) delay times w = (Resolved x, w') ->
    exists w2, thisModel this (now w2) <> None /\ cb w2 = (Resolved x, w').
Proof.
  induction times as [|times IH]; intros w x w'.
  - simpl. unfold checkModel.
    destruct (thisModel this (now w)) eqn:E; [|discriminate].
    intro H. exists w. split; [congruence | assumption].
  - destruct times as [|t].
    + simpl. unfold checkModel.
      destruct (thisModel this (now w)) eqn:E; [|discriminate].
      intro H. exists w. split; [congruence | assumption].
    + rewrite retryOperation_step. unfold checkModel at 1.
      destruct (thisModel this (now w)) eqn:E.
      * intro H. exists w. split; [congruence | assumption].
      * apply IH.
Qed.

Lemma predict_resolved_inv img (mo : option (Model rt)) w preds w' :
  predict rt img mo w = (Resolved preds, w') ->
  exists m labels batched logits values,
    mo = Some m /\ classes m = Some labels /\
    preprocess rt img (Some m) = Resolved batched /\
    model_predict rt (net m) batched = Resolved logits /\
    settle (tensor_data rt logits) = Resolved values /\
    preds = getTopKClasses values labels.
Proof.
  unfold predict, bind, record, liftO.
  destruct mo as [m|].
  2:{ destruct (preprocess rt img None); discriminate. }
  destruct (preprocess rt img (Some m)) as [batched|] eqn:Ep; [|discriminate].
  destruct (model_predict rt (net m) batched) as [logits|] eqn:El; [|discriminate].
  unfold getTopKClasses_async, bind, await.
  destruct (settle (tensor_data rt logits)) as [values|] eqn:Ev; [|discriminate].
  destruct (classes m) as [labels|] eqn:Ec; [|discriminate].
  unfold ret. intro H. inversion H.
  exists m, labels, batched, logits, values. auto 10.
Qed.

(** A resolved [inference] went through every stage. *)
Lemma inference_resolved_inv this s w preds w' :
  inference rt env this s w = (Resolved preds, w') ->
  exists m labels ct buf w1 bmp w2 batched logits values,
    model this = Some m /\ classes m = Some labels /\
    resolveImage env s w = (Resolved (ct, buf), w1) /\
    decodeBitmap env ct buf w1 = (Resolved bmp, w2) /\
    preprocess rt bmp (Some m) = Resolved batched /\
    model_predict rt (net m) batched = Resolved logits /\
    settle (tensor_data rt logits) = Resolved values /\
    preds = getTopKClasses values labels.
Proof.
  unfold inference, tryCatch.
  match goal with |- context [bind ?m ?k w] =>
    destruct (bind m k w) as [[a | r] w2] eqn:E end; [|discriminate].
  intro H. inversion H; subst. revert E. unfold bind.
  destruct (resolveImage env s w) as [[[ct buf] | r] w3] eqn:Er; [|discriminate].
  destruct (decodeBitmap env ct buf w3) as [[bmp | r] w4] eqn:Ed; [|discriminate].
  intro E. apply predict_resolved_inv in E.
  destruct E as (m & labels & batched & logits & values
                 & Hm & Hc & Hp & Hl & Hv & Hr).
  exists m, labels, ct, buf, w3, bmp, w4, batched, logits, values.
  split; [eapply thisModel_some; eassumption|]. auto 10.
Qed.

Lemma classifyChecks_resolved_error this s w u w1 :
  classifyChecks rt env this s w = (Resolved u, w1) -> error this = None.
Proof.
  destruct (error this) as [e|] eqn:He; [|reflexivity].
  rewrite (classifyChecks_with_error rt env this e s w He).
  destruct (classifyChecks rt env (withoutError this) s w) as [[? | ?] ?];
    discriminate.
Qed.

Lemma classify_resolved_inv this s w preds w' :
  classify rt env this s w = (Resolved preds, w') ->
  error this = None /\
  exists wr, inference rt env this s wr = (Resolved preds, w').
Proof.
  unfold classify, bind.
  destruct (classifyChecks rt env this s w) as [[u | v] w1] eqn:C; [|discriminate].
  intro H. apply retry_resolved_inv in H. destruct H as (w2 & _ & H).
  split; [eapply classifyChecks_resolved_error; eassumption|]. now exists w2.
Qed.

End GateFacts.

(** X7.  No call of [classify] waits more than 19 times, and each wait is
    1000 long, whatever the instance, the locator and the collaborators do:
    the checks and [inference] never wait, only the retry loop does. *)
Theorem classify_waits_bounded (rt : TensorRuntime) (env : Env)
        (this : Instance rt) (imageUrl : string) (w : World) :
  exists k, (k <= 19)%nat /\
            waitsOf (trace (snd (classify rt env this imageUrl w)))
            = repeat 1000 k ++ waitsOf (trace w).
Proof.
  pose proof (classifyChecks_keepsWaits rt env this imageUrl w) as Hc.
  unfold classify, bind.
  destruct (classifyChecks rt env this imageUrl w) as [[[] | v] w1]; simpl in Hc.
  - destruct (retryOperation_waits
                (checkModel this (inference rt env this imageUrl)) 1000
                (checkModel_keepsWaits rt this _)) with (times := 20%nat) (w := w1)
      as (k & Hk & Hw).
    + intros w0 cb w2 H. apply checkModel_callback in H. subst.
      apply inference_keepsWaits.
    + exists k. split; [lia|]. now rewrite Hw, Hc.
  - exists 0%nat. split; [lia|]. exact Hc.
Qed.

(** X8.  A call of [classify] that resolves resolves with the ranking of
    what the model produced for the image: the instance has no recorded
    error, its model is loaded and has a label list, and the result is
    [getTopKClasses], against those labels, of the data of the tensor that
    [model.predict] returned on the preprocessed bitmap decoded from the
    bytes the locator resolved to; so it has at most one entry per label. *)
Theorem classify_resolves_with_ranking (rt : TensorRuntime) (env : Env)
        (this : Instance rt) (imageUrl : string) (w w' : World)
        (predictions : list ClassAndProb)
        (Hres : classify rt env this imageUrl w = (Resolved predictions, w')) :
  exists m labels wr ct buf w1 bmp w2 batched logits values,
    error this = None /\
    model this = Some m /\ classes m = Some labels /\
    resolveImage env imageUrl wr = (Resolved (ct, buf), w1) /\
    decodeBitmap env ct buf w1 = (Resolved bmp, w2) /\
    preprocess rt bmp (Some m) = Resolved batched /\
    model_predict rt (net m) batched = Resolved logits /\
    settle (tensor_data rt logits) = Resolved values /\
    predictions = getTopKClasses values labels /\
    (List.length predictions <= List.length labels)%nat.
Proof.
  apply classify_resolved_inv in Hres. destruct Hres as (He & wr & Hi).
  apply inference_resolved_inv in Hi.
  destruct Hi as (m & labels & ct & buf & w1 & bmp & w2 & batched & logits
                  & values & Hm & Hc & Hr & Hd & Hp & Hl & Hv & Hpred).
  exists m, labels, wr, ct, buf, w1, bmp, w2, batched, logits, values.
  repeat (split; [assumption|]).
  subst predictions. rewrite getTopKClasses_emit, length_map, length_firstn. lia.
Qed.

Lemma classify_resolves_with_ranking_witness :
  exists m labels wr ct buf w1 bmp w2 batched logits values,
    error Sample.served = None /\
    model Sample.served = Some m /\ classes m = Some labels /\
    resolveImage Sample.environment "https://images.example/cat.png" wr
    = (Resolved (ct, buf), w1) /\
    decodeBitmap Sample.environment ct buf w1 = (Resolved bmp, w2) /\
    preprocess Sample.runtime bmp (Some m) = Resolved batched /\
    model_predict Sample.runtime (net m) batched = Resolved logits /\
    settle (tensor_data Sample.runtime logits) = Resolved values /\
    [mkCP (Some "b"%string) (Num (9 # 10)); mkCP (Some "c"%string) (Num (5 # 10));
     mkCP (Some "a"%string) (Num (1 # 10))] = getTopKClasses values labels /\
    (3 <= List.length labels)%nat.
Proof.
  exact (classify_resolves_with_ranking Sample.runtime Sample.environment
           Sample.served "https://images.example/cat.png" Sample.start
           (mkWorld 3036 [EvPredict true; EvDecodePNG;
                          EvFetch "https://images.example/cat.png";
                          EvWait 1000; EvWait 1000; EvWait 1000])
           _ eq_refl).
Defined.

(** X9.  A model whose metadata gave no label list (a missing [labels]
    field, or metadata that failed to parse after the model was loaded) can
    never classify: every run of [inference] is rejected with an
    [{ error: ... }] object and every call of [classify] is rejected. *)
Theorem unlabelled_model_never_classifies (rt : TensorRuntime) (env : Env)
        (this : Instance rt)
        (Hnone : forall m, model this = Some m -> classes m = None) :
  forall imageUrl w,
    (exists v w', inference rt env this imageUrl w = (Rejected v, w') /\
                  isErrorObject v = true) /\
    (exists v w', classify rt env this imageUrl w = (Rejected v, w')).
Proof.
  intros imageUrl w. split.
  - destruct (inference rt env this imageUrl w) as [[preds | v] w'] eqn:E.
    + apply inference_resolved_inv in E.
      destruct E as (m & labels & _ & _ & _ & _ & _ & _ & _ & _ & Hm & Hc & _).
      rewrite (Hnone m Hm) in Hc. discriminate.
    + exists v, w'. split; [reflexivity|].
      eapply inference_rejections. eassumption.
  - destruct (classify rt env this imageUrl w) as [[preds | v] w'] eqn:E.
    + apply classify_resolved_inv in E. destruct E as (_ & wr & E).
      apply inference_resolved_inv in E.
      destruct E as (m & labels & _ & _ & _ & _ & _ & _ & _ & _ & Hm & Hc & _).
      rewrite (Hnone m Hm) in Hc. discriminate.
    + now exists v, w'.
Qed.

Lemma unlabelled_model_never_classifies_witness :
  inference Sample.runtime Sample.environment
            (mkInstance Sample.runtime None
                        (Some (mkModel Sample.runtime Sample.net3 None)) 0)
            "https://images.example/cat.png" Sample.start
  = (Rejected (errorObject
                 (VError "TypeError"
                    "Cannot read properties of undefined (reading 'length')")),
     mkWorld 36 [EvPredict true; EvDecodePNG;
                 EvFetch "https://images.example/cat.png"]).
Proof.
  destruct (unlabelled_model_never_classifies Sample.runtime Sample.environment
              (mkInstance Sample.runtime None
                          (Some (mkModel Sample.runtime Sample.net3 None)) 0))
    with (imageUrl := "https://images.example/cat.png"%string) (w := Sample.start)
    as [_ _].
  - intros m H. inversion H. reflexivity.
  - reflexivity.
Defined.

(** *** Further properties of loading, resolving and decoding *)

Lemma prefix_spec (p s : string) :
  String.prefix p s = true <-> exists post, s = (p ++ post)%string.
Proof.
  revert s. induction p as [|c p IH]; intro s.
  - split; [intros _; now exists s | intros _; now destruct s].
  - destruct s as [|d s]; simpl.
    + split; [discriminate | intros [post H]; discriminate].
    + destruct (Ascii.ascii_dec c d) as [-> | Hne].
      * rewrite IH. split; intros [post H]; exists post; [now rewrite H|].
        now inversion H.
      * split; [discriminate | intros [post H]; inversion H; congruence].
Qed.

Lemma includes_spec (p s : string) :
  includes p s = true <-> exists pre post, s = (pre ++ p ++ post)%string.
Proof.
  induction s as [|c s IH]; cbn [includes].
  - rewrite orb_false_r, prefix_spec. split.
    + intros [post H]. now exists ""%string, post.
    + intros (pre & post & H). destruct pre; [|discriminate]. now exists post.
  - rewrite orb_true_iff, prefix_spec, IH. split.
    + intros [[post H] | (pre & post & H)].
      * now exists ""%string, post.
      * exists (String c pre), post. simpl. now rewrite H.
    + intros (pre & post & H). destruct pre as [|d pre].
      * left. now exists post.
      * right. simpl in H. inversion H. now exists pre, post.
Qed.

(** X10.  The tests on locators and content types are unanchored substring
    tests: the local-path test accepts exactly the strings that contain
    [file:///] anywhere, the PNG test the content types containing [png],
    the JPEG test those containing [jpeg] or [jpg]; an absent content type
    passes neither.  Only the embedded test is anchored at the start. *)
Theorem pattern_tests_are_substring_tests :
  (forall s, testFile s = true <->
             exists pre post, s = (pre ++ "file:///" ++ post)%string)
  /\ (forall s, startsWith s "data:image/" = true <->
                exists post, s = ("data:image/" ++ post)%string)
  /\ (forall ct, testPng (Some ct) = true <->
                 exists pre post, ct = (pre ++ "png" ++ post)%string)
  /\ (forall ct, testJpeg (Some ct) = true <->
                 exists pre post, ct = (pre ++ "jpeg" ++ post)%string \/
                                  ct = (pre ++ "jpg" ++ post)%string)
  /\ testPng None = false /\ testJpeg None = false.
Proof.
  split; [intro s; apply includes_spec|].
  split; [intro s; apply prefix_spec|].
  split; [intro ct; apply includes_spec|].
  split; [|split; reflexivity].
  intro ct. unfold testJpeg. rewrite orb_true_iff, !includes_spec. split.
  - intros [(pre & post & H) | (pre & post & H)]; exists pre, post; auto.
  - intros (pre & post & [H | H]); [left | right]; now exists pre, post.
Qed.

(** X11.  The decoder is chosen by two independent tests, on one stream
    made of the buffer.  A content type passing only the PNG test goes to
    the PNG decoder alone, one passing only the JPEG test to the JPEG decoder
    alone, each on the fresh stream.  One passing both goes to the PNG
    decoder first, and the JPEG decoder is then handed the same stream as
    the PNG decoder left it, not a fresh one: if the PNG decoder read it to
    the end, the JPEG decoder gets a stream that delivers no byte, and what
    that decoding settles with, if it settles, is the result.  If the PNG
    decoding fails the JPEG decoder is not called. *)
Theorem decoder_dispatch (env : Env) (ct : option string) (buf : Buffer) (w : World) :
  let png := PImage_decodePNGFromStream env (bufferToStream buf) in
  let jpeg := PImage_decodeJPEGFromStream env (bufferToStream buf) in
  let jpegAfterPng := PImage_decodeJPEGFromStream env (streamAfter png) in
  (testPng ct = true -> testJpeg ct = false ->
   decodeBitmap env ct buf w
   = (match settle (decoded png) with
      | Resolved b => Resolved (Some b)
      | Rejected r => Rejected r
      end,
      mkWorld (now w + latency (decoded png)) (EvDecodePNG :: trace w)))
  /\ (testPng ct = false -> testJpeg ct = true ->
      decodeBitmap env ct buf w
      = (match settle (decoded jpeg) with
         | Resolved b => Resolved (Some b)
         | Rejected r => Rejected r
         end,
         mkWorld (now w + latency (decoded jpeg)) (EvDecodeJPEG :: trace w)))
  /\ (testPng ct = true -> testJpeg ct = true ->
      forall b, settle (decoded png) = Resolved b ->
      decodeBitmap env ct buf w
      = (match settle (decoded jpegAfterPng) with
         | Resolved b' => Resolved (Some b')
         | Rejected r => Rejected r
         end,
         mkWorld (now w + latency (decoded png) + latency (decoded jpegAfterPng))
                 (EvDecodeJPEG :: EvDecodePNG :: trace w)))
  /\ (readToEnd (streamAfter png) ->
      pushedAfterEnd (streamState (streamAfter png)) = false ->
      forall fuel, (1 <= fuel)%nat -> consume fuel (streamAfter png) = Some [])
  /\ (testPng ct = true ->
      forall r, settle (decoded png) = Rejected r ->
      decodeBitmap env ct buf w
      = (Rejected r,
         mkWorld (now w + latency (decoded png)) (EvDecodePNG :: trace w))).
Proof.
  intros png jpeg jpegAfterPng. subst jpegAfterPng jpeg png.
  unfold decodeBitmap, bind, record, await, ret.
  split; [|split; [|split; [|split]]].
  - intros Hp Hj. rewrite Hp, Hj. cbn.
    now destruct (settle (decoded (PImage_decodePNGFromStream env (bufferToStream buf)))).
  - intros Hp Hj. rewrite Hp, Hj. cbn.
    now destruct (settle (decoded (PImage_decodeJPEGFromStream env (bufferToStream buf)))).
  - intros Hp Hj b Hb. rewrite Hp, Hj. cbn. rewrite Hb. cbn.
    now destruct (settle (decoded (PImage_decodeJPEGFromStream env
                    (streamAfter (PImage_decodePNGFromStream env (bufferToStream buf)))))).
  - intros [Hq He] Herr fuel Hf. destruct fuel as [|fuel]; [lia|].
    cbn [consume]. now rewrite Herr, Hq, He.
  - intros Hp r Hr. rewrite Hp. cbn. now rewrite Hr.
Qed.

Section LoadFacts.

Variable rt : TensorRuntime.
Variable env : Env.

Lemma loadModel_resolves p w :
  exists f w', loadModel rt env (Some p) w = (Resolved f, w').
Proof.
  unfold loadModel, missingModelUrl.
  destruct (modelUrl p) as [u|]; [|eexists; eexists; reflexivity].
  destruct (String.eqb u ""); [eexists; eexists; reflexivity|].
  unfold tryCatch.
  match goal with |- context [bind ?m ?k w] =>
    destruct (bind m k w) as [[f | r] w2] end;
    eexists; eexists; reflexivity.
Qed.

Lemma loadModel_keepsWaits params : keepsWaits (loadModel rt env params).
Proof. unfold loadModel, missingModelUrl. keeps_waits. Qed.

End LoadFacts.

(** X12.  [loadModel] never waits.  Called without an argument it is
    rejected at the destructuring of its parameter, with nothing recorded,
    and the instance is left without error and without model.  Given an
    argument it never rejects: every failure of a collaborator is caught.
    It then records an error exactly when the locator is missing or empty,
    the error is ["Missing model URL!"] and no model is set. *)
Theorem loadModel_settles (rt : TensorRuntime) (env : Env) (w : World) :
  (forall params,
      waitsOf (trace (snd (loadModel rt env params w))) = waitsOf (trace w))
  /\ (exists v, loadModel rt env None w = (Rejected v, w))
  /\ newInstance rt env None w = mkInstance rt None None (now w)
  /\ (forall p,
         exists f w',
           loadModel rt env (Some p) w = (Resolved f, w') /\
           ((modelUrl p = None \/ modelUrl p = Some ""%string) /\
            fError rt f = Some "Missing model URL!"%string /\ fModel rt f = None
            \/
            (exists u, modelUrl p = Some u /\ u <> ""%string) /\
            fError rt f = None)).
Proof.
  split; [|split; [|split]].
  - intro params. apply loadModel_keepsWaits.
  - eexists. reflexivity.
  - reflexivity.
  - intro p. destruct (loadModel_resolves rt env p w) as (f & w' & H).
    exists f, w'. split; [exact H|].
    destruct p as [[u|]].
    + destruct (String.eqb_spec u "") as [-> | Hne].
      * left. rewrite loadModel_missing in H by now right.
        inversion H. auto.
      * right. split; [now exists u|].
        eapply loadModel_error_unset; eassumption.
    + left. rewrite loadModel_missing in H by now left.
      inversion H. auto.
Qed.

(** X13.  Loading from a served directory: for a locator [u] that does not
    contain [file:///], the metadata is fetched from [u + "metadata.json"]
    and the model from [u + "model.json"] (plain concatenation, so [u] has
    to end in a slash); when the fetch, the body, the model and the labels
    all settle, the instance holds the model with those labels, no error,
    and becomes ready after the three latencies. *)
Theorem loadModel_remote (rt : TensorRuntime) (env : Env) (u : string)
        (w : World) (response : Response) (body : string)
        (loaded : LayersModel rt) (labels : option (list string))
        (Hu : u <> ""%string) (Hfile : testFile u = false)
        (Hfetch : settle (fetch env (u ++ "metadata.json")) = Resolved response)
        (Htext : settle (text response) = Resolved body)
        (Hload : settle (loadLayersModel rt (ModelUrl (u ++ "model.json")))
                 = Resolved loaded)
        (Hlabels : JSON_parse_labels env (BodyText body) = Resolved labels) :
  let ready := now w + latency (fetch env (u ++ "metadata.json"))
               + latency (text response)
               + latency (loadLayersModel rt (ModelUrl (u ++ "model.json"))) in
  loadModel rt env (Some (mkLoadParams (Some u))) w
  = (Resolved (mkFields rt None (Some (mkModel rt loaded labels))),
     mkWorld ready
             (EvLoadLayersModel :: EvFetch (u ++ "metadata.json") :: trace w))
  /\ newInstance rt env (Some (mkLoadParams (Some u))) w
     = mkInstance rt None (Some (mkModel rt loaded labels)) ready.
Proof.
  intro ready.
  assert (E : loadModel rt env (Some (mkLoadParams (Some u))) w
              = (Resolved (mkFields rt None (Some (mkModel rt loaded labels))),
                 mkWorld ready
                   (EvLoadLayersModel :: EvFetch (u ++ "metadata.json") :: trace w))).
  { unfold loadModel. cbn [modelUrl].
    destruct (String.eqb_spec u ""); [contradiction|].
    rewrite Hfile. unfold tryCatch, bind, record, await, ret. cbn.
    rewrite Hfetch, Htext. cbn. rewrite Hload, Hlabels. reflexivity. }
  split; [exact E|]. unfold newInstance. now rewrite E.
Qed.

Lemma loadModel_remote_witness :
  Sample.served
  = mkInstance Sample.runtime None
               (Some (mkModel Sample.runtime Sample.net3
                              (Some ["a"; "b"; "c"]%string))) 2505.
Proof.
  refine (proj2 (loadModel_remote Sample.runtime Sample.environment
                   "https://models.example/tm/" Sample.start
                   (Sample.response "application/json" [] "{ labels }")
                   "{ labels }" Sample.net3 (Some ["a"; "b"; "c"]%string)
                   _ eq_refl eq_refl eq_refl eq_refl eq_refl)).
  discriminate.
Defined.

(** X14.  Loading from a local directory: for a locator [u] containing
    [file:///], the metadata is read from the path of
    [u + "metadata.json"] and the model from [model.json] joined to the path
    of [u]; when both paths, the file, the model and the labels settle, the
    instance holds the model with those labels, no error, and becomes ready
    after the two latencies. *)
Theorem loadModel_local (rt : TensorRuntime) (env : Env) (u : string)
        (w : World) (modelPath metaDataPath : string) (body : Buffer)
        (loaded : LayersModel rt) (labels : option (list string))
        (Hu : u <> ""%string) (Hfile : testFile u = true)
        (Hpath : url_fileURLToPath env u = Resolved modelPath)
        (Hmeta : url_fileURLToPath env (u ++ "metadata.json") = Resolved metaDataPath)
        (Hread : settle (fs_readFile env metaDataPath) = Resolved body)
        (Hload : settle (loadLayersModel rt
                           (FileSystem (path_join env modelPath "model.json")))
                 = Resolved loaded)
        (Hlabels : JSON_parse_labels env (BodyBuffer body) = Resolved labels) :
  let ready := now w + latency (fs_readFile env metaDataPath)
               + latency (loadLayersModel rt
                            (FileSystem (path_join env modelPath "model.json"))) in
  loadModel rt env (Some (mkLoadParams (Some u))) w
  = (Resolved (mkFields rt None (Some (mkModel rt loaded labels))),
     mkWorld ready (EvLoadLayersModel :: EvReadFile metaDataPath :: trace w))
  /\ newInstance rt env (Some (mkLoadParams (Some u))) w
     = mkInstance rt None (Some (mkModel rt loaded labels)) ready.
Proof.
  intro ready.
  assert (E : loadModel rt env (Some (mkLoadParams (Some u))) w
              = (Resolved (mkFields rt None (Some (mkModel rt loaded labels))),
                 mkWorld ready
                   (EvLoadLayersModel :: EvReadFile metaDataPath :: trace w))).
  { unfold loadModel. cbn [modelUrl].
    destruct (String.eqb_spec u ""); [contradiction|].
    rewrite Hfile. unfold tryCatch, bind, liftO, record, await, ret.
    rewrite Hpath, Hmeta. cbn. rewrite Hread. cbn.
    rewrite Hload, Hlabels. reflexivity. }
  split; [exact E|]. unfold newInstance. now rewrite E.
Qed.

Lemma loadModel_local_witness :
  newInstance Sample.runtime Sample.environment
              (Some (mkLoadParams (Some "file:///models/tm/"%string))) Sample.start
  = mkInstance Sample.runtime None
               (Some (mkModel Sample.runtime Sample.net3
                              (Some ["a"; "b"; "c"]%string))) 703.
Proof.
  refine (proj2 (loadModel_local Sample.runtime Sample.environment
                   "file:///models/tm/" Sample.start
                   "/models/tm/" "/models/tm/metadata.json"
                   [Byte.x89; Byte.x50; Byte.x4e; Byte.x47]
                   Sample.net3 (Some ["a"; "b"; "c"]%string)
                   _ eq_refl eq_refl eq_refl eq_refl eq_refl eq_refl)).
  discriminate.
Defined.

(** *** What a call touches, by the kind of its locator *)

Lemma emitsOnly_ret {A} P (a : A) : emitsOnly P (ret a).
Proof. intro w. now exists []. Qed.

Lemma emitsOnly_throw {A} P v : emitsOnly P (@throw A v).
Proof. intro w. now exists []. Qed.

Lemma emitsOnly_liftO {A} P (o : Outcome A) : emitsOnly P (liftO o).
Proof. intro w. now exists []. Qed.

Lemma emitsOnly_await {A} P (i : IO A) : emitsOnly P (await i).
Proof. intro w. now exists []. Qed.

Lemma emitsOnly_record P e : P e = true -> emitsOnly P (record e).
Proof. intros H w. exists [e]. simpl. now rewrite H. Qed.

Lemma emitsOnly_bind {A B} P (m : M A) (k : A -> M B) :
  emitsOnly P m -> (forall a, emitsOnly P (k a)) -> emitsOnly P (bind m k).
Proof.
  intros Hm Hk w. unfold bind. destruct (Hm w) as (new1 & H1 & F1).
  destruct (m w) as [[a | r] w1]; simpl in H1.
  - destruct (Hk a w1) as (new2 & H2 & F2). exists (new2 ++ new1).
    rewrite H2, H1, app_assoc, forallb_app, F1, F2. now split.
  - now exists new1.
Qed.

Lemma emitsOnly_tryCatch {A} P (m : M A) (h : Value -> M A) :
  emitsOnly P m -> (forall r, emitsOnly P (h r)) -> emitsOnly P (tryCatch m h).
Proof.
  intros Hm Hh w. unfold tryCatch. destruct (Hm w) as (new1 & H1 & F1).
  destruct (m w) as [[a | r] w1]; simpl in H1.
  - now exists new1.
  - destruct (Hh r w1) as (new2 & H2 & F2). exists (new2 ++ new1).
    rewrite H2, H1, app_assoc, forallb_app, F1, F2. now split.
Qed.

Lemma emitsOnly_retry {R} P (op : M (M R)) (delay : Z) :
  P (EvWait delay) = true ->
  emitsOnly P op ->
  (forall w cb w1, op w = (Resolved cb, w1) -> emitsOnly P cb) ->
  forall times, emitsOnly P (retryOperation op delay times).
Proof.
  intros Hwait Hop Hcb.
  assert (Once : forall w (tail : Value -> World -> Outcome R * World),
             (forall r w1, tail r w1 = (Rejected (getField "message" r), w1)) ->
             exists new,
               trace (snd (match op w with
                           | (Resolved cb, w1) => cb w1
                           | (Rejected r, w1) => tail r w1
                           end)) = new ++ trace w /\ forallb P new = true).
  { intros w tail Ht. destruct (Hop w) as (new1 & H1 & F1).
    destruct (op w) as [[cb | r] w1] eqn:E; simpl in H1.
    - destruct (Hcb _ _ _ E w1) as (new2 & H2 & F2). exists (new2 ++ new1).
      rewrite H2, H1, app_assoc, forallb_app, F1, F2. now split.
    - exists new1. now rewrite Ht. }
  induction times as [|times IH]; intro w.
  - simpl. now apply Once.
  - destruct times as [|t].
    + simpl. now apply Once.
    + rewrite retryOperation_step. destruct (Hop w) as (new1 & H1 & F1).
      destruct (op w) as [[cb | r] w1] eqn:E; simpl in H1.
      * destruct (Hcb _ _ _ E w1) as (new2 & H2 & F2). exists (new2 ++ new1).
        rewrite H2, H1, app_assoc, forallb_app, F1, F2. now split.
      * destruct (IH (mkWorld (now w1 + delay) (EvWait delay :: trace w1)))
          as (new2 & H2 & F2).
        exists (new2 ++ EvWait delay :: new1).
        rewrite H2. cbn [trace]. rewrite H1, forallb_app, F2. cbn [forallb].
        rewrite Hwait, F1. split; [|reflexivity].
        now rewrite <- app_assoc.
Qed.

Create HintDb emits.
#[local] Hint Resolve emitsOnly_ret emitsOnly_throw emitsOnly_liftO
  emitsOnly_await emitsOnly_bind emitsOnly_tryCatch : emits.
#[local] Hint Extern 1 (emitsOnly _ (record _)) =>
  (apply emitsOnly_record; reflexivity) : emits.

Ltac emits_only :=
  repeat first
    [ progress intros
    | match goal with
      | |- emitsOnly _ (if ?b then _ else _) => destruct b
      | |- emitsOnly _ (match ?x with _ => _ end) => destruct x
      | |- emitsOnly _ (bind _ _) => apply emitsOnly_bind
      | |- emitsOnly _ (tryCatch _ _) => apply emitsOnly_tryCatch
      end
    | solve [auto with emits] ].

Section SourceFacts.

Variable rt : TensorRuntime.
Variable env : Env.
Variable P : Event -> bool.
Hypothesis P_png : P EvDecodePNG = true.
Hypothesis P_jpeg : P EvDecodeJPEG = true.
Hypothesis P_predict : forall b, P (EvPredict b) = true.
Hypothesis P_wait : P (EvWait 1000) = true.

Lemma predict_emitsOnly img (m : option (Model rt)) : emitsOnly P (predict rt img m).
Proof.
  unfold predict, getTopKClasses_async.
  apply emitsOnly_bind; [apply emitsOnly_record, P_predict|]. emits_only.
Qed.

Lemma decodeBitmap_emitsOnly ct buf : emitsOnly P (decodeBitmap env ct buf).
Proof.
  unfold decodeBitmap. cbv zeta.
  apply emitsOnly_bind.
  - destruct (testPng ct); [|emits_only].
    apply emitsOnly_bind; [now apply emitsOnly_record|]. emits_only.
  - intros [bmp stream]. destruct (testJpeg ct); [|emits_only].
    apply emitsOnly_bind; [now apply emitsOnly_record|]. emits_only.
Qed.

Lemma inference_emitsOnly this s :
  emitsOnly P (resolveImage env s) -> emitsOnly P (inference rt env this s).
Proof.
  intro Hr. unfold inference. apply emitsOnly_tryCatch; [|emits_only].
  apply emitsOnly_bind; [exact Hr|].
  intros [ct buf]. apply emitsOnly_bind; [apply decodeBitmap_emitsOnly|].
  intros bmp w. apply predict_emitsOnly.
Qed.

Lemma classify_emitsOnly this s :
  emitsOnly P (classifyChecks rt env this s) ->
  emitsOnly P (resolveImage env s) ->
  emitsOnly P (classify rt env this s).
Proof.
  intros Hc Hr. unfold classify. apply emitsOnly_bind; [exact Hc|].
  intros _. apply emitsOnly_retry; [exact P_wait| |].
  - intro w. exists []. split; [|reflexivity].
    unfold checkModel. now destruct (thisModel this (now w)).
  - intros w cb w1 H. apply checkModel_callback in H. subst.
    now apply inference_emitsOnly.
Qed.

End SourceFacts.

Section LocatorFacts.

Variable rt : TensorRuntime.
Variable env : Env.

Lemma classifyChecks_quiet P (this : Instance rt) s :
  testFile s = false -> emitsOnly P (classifyChecks rt env this s).
Proof. intro H. unfold classifyChecks. rewrite H. emits_only. Qed.

Lemma classifyChecks_offline (this : Instance rt) s :
  emitsOnly (fun e => negb (touchesNetwork e)) (classifyChecks rt env this s).
Proof. unfold classifyChecks. emits_only. Qed.

Lemma classifyChecks_loads_nothing (this : Instance rt) s :
  emitsOnly (fun e => match e with EvLoadLayersModel => false | _ => true end)
            (classifyChecks rt env this s).
Proof. unfold classifyChecks. emits_only. Qed.

Lemma resolveImage_embedded P s :
  startsWith s "data:image/" = true -> emitsOnly P (resolveImage env s).
Proof. intro H. unfold resolveImage. rewrite H. emits_only. Qed.

Lemma resolveImage_local s :
  startsWith s "data:image/" = false -> testFile s = true ->
  emitsOnly (fun e => negb (touchesNetwork e)) (resolveImage env s).
Proof. intros H1 H2. unfold resolveImage. rewrite H1, H2. emits_only. Qed.

Lemma resolveImage_not_local s :
  testFile s = false ->
  emitsOnly (fun e => negb (touchesFileSystem e)) (resolveImage env s).
Proof. intros H. unfold resolveImage. rewrite H. emits_only. Qed.

Lemma resolveImage_loads_nothing s :
  emitsOnly (fun e => match e with EvLoadLayersModel => false | _ => true end)
            (resolveImage env s).
Proof. unfold resolveImage. emits_only. Qed.

End LocatorFacts.

(** X15.  What a call of [classify] touches is decided by its locator.  A
    locator that does not contain [file:///] never reaches the file system;
    if it also starts with [data:image/] the call reaches neither the file
    system nor the network.  A locator that contains [file:///] and does not
    start with [data:image/] never reaches the network.  No call loads a
    model. *)
Theorem classify_io_by_locator (rt : TensorRuntime) (env : Env)
        (this : Instance rt) (imageUrl : string) :
  (testFile imageUrl = false ->
   emitsOnly (fun e => negb (touchesFileSystem e))
             (classify rt env this imageUrl))
  /\ (testFile imageUrl = false -> startsWith imageUrl "data:image/" = true ->
      emitsOnly (fun e => negb (touchesFileSystem e) && negb (touchesNetwork e))
                (classify rt env this imageUrl))
  /\ (testFile imageUrl = true -> startsWith imageUrl "data:image/" = false ->
      emitsOnly (fun e => negb (touchesNetwork e))
                (classify rt env this imageUrl))
  /\ emitsOnly (fun e => match e with EvLoadLayersModel => false | _ => true end)
               (classify rt env this imageUrl).
Proof.
  split; [|split; [|split]].
  - intro Hf. apply classify_emitsOnly; try reflexivity.
    + now apply classifyChecks_quiet.
    + now apply resolveImage_not_local.
  - intros Hf Hd. apply classify_emitsOnly; try reflexivity.
    + now apply classifyChecks_quiet.
    + now apply resolveImage_embedded.
  - intros Hf Hd. apply classify_emitsOnly; try reflexivity.
    + apply classifyChecks_offline.
    + now apply resolveImage_local.
  - apply classify_emitsOnly; try reflexivity.
    + apply classifyChecks_loads_nothing.
    + apply resolveImage_loads_nothing.
Qed.

(** *** The stream handed to the decoders *)

(** X16.  The stream made of a buffer delivers exactly that buffer and then
    ends: a consumer that reads it to the end receives the bytes of the
    buffer, once and in order, after a single call of [read]; the stream is
    then read to its end and nothing was pushed after the end.  A second
    call of [read] would push after the end exactly when the buffer has
    bytes. *)
Theorem bufferToStream_delivers_buffer (binary : Buffer) :
  (forall fuel, (3 <= fuel)%nat ->
                consume fuel (bufferToStream binary) = Some binary)
  /\ (let s := readImpl (bufferToStream binary)
                        (streamState (bufferToStream binary)) in
      ended s = true /\ pushedAfterEnd s = false /\
      List.concat (queued s) = binary /\
      pushedAfterEnd (readImpl (bufferToStream binary) s)
      = match binary with [] => false | _ :: _ => true end).
Proof.
  split.
  - intros fuel Hf. destruct fuel as [|[|[|fuel]]]; try lia.
    destruct binary as [|b rest]; [reflexivity|].
    cbn. now rewrite app_nil_r.
  - destruct binary as [|b rest]; cbn; repeat split.
    now rewrite app_nil_r.
Qed.
